(** * Request gating and weather cache of the weather application

    A shallow embedding of the request-gating middleware
    ([src/middleware.ts]), the configuration helpers ([lib/config.ts]),
    the error classes ([lib/errors.ts]) and the weather route
    ([src/app/api/weather/route.ts]), followed by the properties of the
    rate limiter, the trusted-host check, the city validation and the
    in-memory cache.

    Conventions.
    - A JavaScript string is the list of its UTF-16 code units
      ([list N]); [length] is therefore the JavaScript [.length].
    - Timestamps ([Date.now()]) and the integer configuration values are
      in [Z]; process-wide mutable maps are passed explicitly.
    - [Math.ceil (x / d)] on integers is the integer ceiling; the
      floating-point quotient of integers below 2^53 has the same ceiling. *)

From Stdlib Require Import ZArith NArith Lia List Bool String Ascii.
From Stdlib Require Import DecimalString Sorting.Permutation Sorting.Sorted.
From stdpp Require Import gmap list.
Import ListNotations.

Local Open Scope Z_scope.

(** ** JavaScript strings *)

Module JsString.

Abbreviation jsstring := (list N).

(** A literal of the source, one code unit per (ASCII) character. *)
Fixpoint js (s : string) : jsstring :=
  match s with
  | EmptyString => []
  | String a s' => N_of_ascii a :: js s'
  end.

(** [===] on strings. *)
Fixpoint strEq (s t : jsstring) : bool :=
  match s, t with
  | [], [] => true
  | c :: s', d :: t' => N.eqb c d && strEq s' t'
  | _, _ => false
  end.

(** Truthiness of a string: only the empty string is falsy. *)
Definition truthy (s : jsstring) : bool :=
  match s with [] => false | _ :: _ => true end.

(** ECMAScript [LineTerminator]. *)
Definition isLineTerminator (c : N) : bool :=
  (N.eqb c 10 || N.eqb c 13 || N.eqb c 8232 || N.eqb c 8233)%N.

(** ECMAScript [WhiteSpace] and [LineTerminator]: what [\s] matches and
    what [trim] strips. *)
Definition isWhiteSpace (c : N) : bool :=
  (N.eqb c 9 || N.eqb c 10 || N.eqb c 11 || N.eqb c 12 || N.eqb c 13
   || N.eqb c 32 || N.eqb c 160 || N.eqb c 5760
   || (N.leb 8192 c && N.leb c 8202)
   || N.eqb c 8232 || N.eqb c 8233 || N.eqb c 8239 || N.eqb c 8287
   || N.eqb c 12288 || N.eqb c 65279)%N.

Fixpoint trimStart (s : jsstring) : jsstring :=
  match s with
  | c :: s' => if isWhiteSpace c then trimStart s' else s
  | [] => []
  end.

Definition trim (s : jsstring) : jsstring :=
  rev (trimStart (rev (trimStart s))).

Fixpoint startsWith (s p : jsstring) {struct p} : bool :=
  match p, s with
  | [], _ => true
  | c :: p', d :: s' => N.eqb c d && startsWith s' p'
  | _ :: _, [] => false
  end.

Definition endsWith (s t : jsstring) : bool :=
  startsWith (rev s) (rev t).

Fixpoint includes (s t : jsstring) : bool :=
  startsWith s t ||
  match s with
  | [] => false
  | _ :: s' => includes s' t
  end.

(** [s.split(sep)] for a one-character separator. *)
Fixpoint split (sep : N) (s : jsstring) : list jsstring :=
  match s with
  | [] => [[]]
  | c :: s' =>
      if N.eqb c sep then [] :: split sep s'
      else match split sep s' with
           | h :: t => (c :: h) :: t
           | [] => [[c]]
           end
  end.

(** [toLowerCase] on the Basic Latin letters; other code units are kept.
    The route applies it to validated city names only, which hold no
    other cased character. *)
Definition lowerChar (c : N) : N :=
  if (N.leb 65 c && N.leb c 90)%N then (c + 32)%N else c.

Definition toLowerCase (s : jsstring) : jsstring := map lowerChar s.

(** [String(n)] for an integer. *)
Definition numberToString (z : Z) : jsstring :=
  js (NilZero.string_of_int (Z.to_int z)).

(** The quotation mark, for template literals that contain one. *)
Definition dquote : jsstring := [34%N].

End JsString.
Import JsString.

(** [a || b] where [a] is a string that may be [null] and [b] a string:
    [null] and the empty string are falsy. *)
Definition orDefault (a : option jsstring) (b : jsstring) : jsstring :=
  match a with
  | Some s => if truthy s then s else b
  | None => b
  end.

(** [Math.ceil (x / d)] for integers [x] and [d > 0]. *)
Definition ceilDiv (x d : Z) : Z := - ((- x) / d).

(** ** Configuration ([lib/config.ts]) *)

Record AppConfig := {
  trustedHosts : list jsstring;
  cacheTtlSeconds : Z;
  cacheMaxSize : Z;
  nodeEnv : jsstring;
  enableCache : bool;
  enableRateLimiting : bool;
}.

(** [process.env]. *)
Definition Env := jsstring -> option jsstring.

Definition getOptionalEnvVar (env : Env) (key defaultValue : jsstring) : jsstring :=
  match env key with
  | Some v => if truthy v then v else defaultValue
  | None => defaultValue
  end.

Definition parseStringArray (value : jsstring) (defaultValue : list jsstring)
  : list jsstring :=
  if negb (truthy value) then defaultValue
  else List.filter truthy (map trim (split 44 value)).

(** The [trustedHosts] field as [getConfig] computes it. *)
Definition configTrustedHosts (env : Env) : list jsstring :=
  parseStringArray
    (getOptionalEnvVar env (js "TRUSTED_HOSTS") (js "localhost,localhost:3000"))
    [js "localhost"; js "localhost:3000"].

Definition isTrustedHost (config : AppConfig) (host : jsstring) : bool :=
  existsb
    (fun trustedHost =>
       strEq host trustedHost || endsWith host (js "." ++ trustedHost))
    (trustedHosts config).

(** ** Errors ([lib/errors.ts]) *)

(** An [ApiError] or one of its subclasses; [name] tells the class, and the
    two [external] fields exist on [ExternalApiError] only. *)
Record ApiError := {
  name : jsstring;
  message : jsstring;
  statusCode : Z;
  isOperational : bool;
  code : option jsstring;
  externalService : option jsstring;
  externalStatusCode : option Z;
}.

Definition newApiError (message : jsstring) (statusCode : Z)
    (isOperational : bool) (code : option jsstring) : ApiError :=
  {| name := js "Error"; message := message; statusCode := statusCode;
     isOperational := isOperational; code := code;
     externalService := None; externalStatusCode := None |}.

Definition ValidationError (message : jsstring) : ApiError :=
  {| name := js "ValidationError"; message := message; statusCode := 400;
     isOperational := true; code := Some (js "VALIDATION_ERROR");
     externalService := None; externalStatusCode := None |}.

Definition NotFoundError (message : jsstring) : ApiError :=
  {| name := js "NotFoundError"; message := message; statusCode := 404;
     isOperational := true; code := Some (js "NOT_FOUND");
     externalService := None; externalStatusCode := None |}.

Definition ExternalApiError (message externalService : jsstring)
    (externalStatusCode : option Z) : ApiError :=
  {| name := js "ExternalApiError"; message := message; statusCode := 502;
     isOperational := true; code := Some (js "EXTERNAL_API_ERROR");
     externalService := Some externalService;
     externalStatusCode := externalStatusCode |}.

(** A thrown value: an [ApiError], another [Error] (name and message), or
    something that is not an [Error]. *)
Inductive Thrown :=
| ThrownApi (e : ApiError)
| ThrownError (errName errMessage : jsstring)
| ThrownOther.

(** The outcome of a call that may throw. *)
Inductive Completion (A : Type) :=
| Normal (a : A)
| Throw (t : Thrown).
Arguments Normal {A} a.
Arguments Throw {A} t.

Definition handleError (error : Thrown) : ApiError :=
  match error with
  | ThrownApi e => e
  | ThrownError _ msg =>
      if includes msg (js "fetch") || includes msg (js "network") then
        ExternalApiError
          (js "Network error occurred while fetching weather data")
          (js "OpenWeather API") None
      else if includes msg (js "timeout") || includes msg (js "abort") then
        ExternalApiError
          (js "Request timeout while fetching weather data")
          (js "OpenWeather API") None
      else newApiError msg 500 true (Some (js "INTERNAL_ERROR"))
  | ThrownOther =>
      newApiError (js "An unexpected error occurred") 500 true
                  (Some (js "UNKNOWN_ERROR"))
  end.

(** The [error] object of [createErrorResponse] (the [stack] field, present
    in development only, is left out). *)
Record ErrorBody := {
  ebMessage : jsstring;
  ebCode : option jsstring;
  ebStatusCode : Z;
}.

Definition createErrorResponse (error : ApiError) : ErrorBody :=
  {| ebMessage := message error; ebCode := code error;
     ebStatusCode := statusCode error |}.

(** ** Requests *)

Record Request := {
  method : jsstring;
  pathname : jsstring;
  cityParam : option jsstring;          (* searchParams.get('city') *)
  headers : jsstring -> option jsstring; (* request.headers.get *)
}.

(** ** The weather route ([src/app/api/weather/route.ts]) *)

(** The class [[^a-zA-Z\s\-']] negated: the code units [replace] keeps. *)
Definition cityCharAllowed (c : N) : bool :=
  ((N.leb 97 c && N.leb c 122) || (N.leb 65 c && N.leb c 90)
   || isWhiteSpace c || N.eqb c 45 || N.eqb c 39)%N.

Definition validateCity (city : jsstring) : Completion unit :=
  if negb (truthy city) then
    Throw (ThrownApi (ValidationError
      (js "City parameter is required and must be a string")))
  else if Nat.eqb (length (trim city)) 0 then
    Throw (ThrownApi (ValidationError (js "City parameter cannot be empty")))
  else if Nat.ltb 100 (length city) then
    Throw (ThrownApi (ValidationError
      (js "City name is too long (max 100 characters)")))
  else
    let sanitizedCity := List.filter cityCharAllowed city in
    if negb (strEq sanitizedCity city) then
      Throw (ThrownApi (ValidationError
        (js "City name contains invalid characters")))
    else Normal tt.

Section Route.

(** The payload of the weather provider is passed through untouched. *)
Context {WeatherData : Type}.

(** *** The in-memory cache *)

Record CacheEntry := {
  data : WeatherData;
  timestamp : Z;
}.

(** A JavaScript [Map] keeps its entries in insertion order and holds a
    key once; the order decides which of two equally old entries the
    stable [sort] puts first. *)
Definition Cache := list (jsstring * CacheEntry).

Fixpoint cacheGet (k : jsstring) (c : Cache) : option CacheEntry :=
  match c with
  | [] => None
  | (k', e) :: c' => if strEq k k' then Some e else cacheGet k c'
  end.

Definition cacheDelete (k : jsstring) (c : Cache) : Cache :=
  List.filter (fun p => negb (strEq k (fst p))) c.

(** [Map.set]: an existing key keeps its place, a new one goes last. *)
Fixpoint cacheSet (k : jsstring) (e : CacheEntry) (c : Cache) : Cache :=
  match c with
  | [] => [(k, e)]
  | (k', e') :: c' =>
      if strEq k k' then (k, e) :: c' else (k', e') :: cacheSet k e c'
  end.

Definition cacheSize (c : Cache) : Z := Z.of_nat (length c).

(** [entries.sort((a, b) => a[1].timestamp - b[1].timestamp)], a stable
    sort. *)
Fixpoint insertEntry (x : jsstring * CacheEntry) (l : Cache) : Cache :=
  match l with
  | [] => [x]
  | y :: l' =>
      if timestamp (snd x) <=? timestamp (snd y) then x :: y :: l'
      else y :: insertEntry x l'
  end.

Fixpoint sortEntries (l : Cache) : Cache :=
  match l with
  | [] => []
  | x :: l' => insertEntry x (sortEntries l')
  end.

(** Not younger: the order [sort] puts the entries in. *)
Definition notYounger (x y : jsstring * CacheEntry) : Prop :=
  timestamp (snd x) <= timestamp (snd y).

Definition getCachedData (config : AppConfig) (cache : Cache) (now : Z)
    (cacheKey : jsstring) : option WeatherData * Cache :=
  if negb (enableCache config) then (None, cache)
  else
    match cacheGet cacheKey cache with
    | None => (None, cache)
    | Some cached =>
        let cacheAge := now - timestamp cached in
        let maxAge := cacheTtlSeconds config * 1000 in
        if maxAge <? cacheAge then (None, cacheDelete cacheKey cache)
        else (Some (data cached), cache)
    end.

(** The loop [for (i = 0; i < toRemove; i++) cache.delete(entries[i][0])]
    with [entries] the part of the array from index [i] on: reading past
    the end of the array makes [entries[i][0]] throw a [TypeError]. *)
Fixpoint evictLoop (iterations : nat) (entries : Cache) (cache : Cache)
  : Completion unit * Cache :=
  match iterations with
  | O => (Normal tt, cache)
  | S n =>
      match entries with
      | [] =>
          (Throw (ThrownError (js "TypeError")
                    (js "Cannot read properties of undefined (reading '0')")),
           cache)
      | (k, _) :: rest => evictLoop n rest (cacheDelete k cache)
      end
  end.

(** [Math.ceil(config.cacheMaxSize * 0.1)]: the product with the double
    nearest to 0.1 rounds to the exact tenth for a multiple of ten and
    stays strictly between the neighbouring integers otherwise. *)
Definition toRemoveOf (config : AppConfig) : Z :=
  ceilDiv (cacheMaxSize config) 10.

Definition setCachedData (config : AppConfig) (cache : Cache) (now : Z)
    (cacheKey : jsstring) (d : WeatherData) : Completion unit * Cache :=
  if negb (enableCache config) then (Normal tt, cache)
  else
    let evicted :=
      if cacheMaxSize config <=? cacheSize cache then
        let entries := sortEntries cache in
        let toRemove := toRemoveOf config in
        evictLoop (Z.to_nat toRemove) entries cache
      else (Normal tt, cache) in
    match evicted with
    | (Throw t, cache') => (Throw t, cache')
    | (Normal _, cache') =>
        (Normal tt,
         cacheSet cacheKey {| data := d; timestamp := now |} cache')
    end.

(** *** The upstream call *)

(** What [response.json()] resolves to; only an object passes the check
    [!data || typeof data !== 'object']. *)
Inductive Json :=
| JsonNull
| JsonPrimitive
| JsonObject (d : WeatherData).

(** How [fetch] settles: a response with its status and body ([None] when
    the body is not JSON and [json()] rejects), or a rejection with the
    error's name and message (an abort after the ten-second timeout has
    the name AbortError). *)
Inductive FetchOutcome :=
| FetchResponse (status : Z) (body : option Json)
| FetchRejected (errName errMessage : jsstring).

Definition responseOk (status : Z) : bool :=
  (200 <=? status) && (status <=? 299).

(** The body of the [try] block. *)
Definition fetchWeatherDataTry (city : jsstring) (upstream : FetchOutcome)
  : Completion WeatherData :=
  match upstream with
  | FetchRejected n m => Throw (ThrownError n m)
  | FetchResponse status body =>
      if negb (responseOk status) then
        if status =? 404 then
          Throw (ThrownApi (NotFoundError
            (js "City " ++ dquote ++ city ++ dquote ++ js " not found")))
        else if status =? 401 then
          Throw (ThrownApi (ExternalApiError
            (js "Invalid API key for OpenWeather service")
            (js "OpenWeather API") (Some status)))
        else if status =? 429 then
          Throw (ThrownApi (ExternalApiError
            (js "OpenWeather API rate limit exceeded")
            (js "OpenWeather API") (Some status)))
        else
          Throw (ThrownApi (ExternalApiError
            (js "OpenWeather API returned status " ++ numberToString status)
            (js "OpenWeather API") (Some status)))
      else
        match body with
        | None =>
            Throw (ThrownError (js "SyntaxError")
                     (js "Unexpected token in JSON"))
        | Some (JsonObject d) => Normal d
        | Some _ =>
            Throw (ThrownApi (ExternalApiError
              (js "Invalid response format from OpenWeather API")
              (js "OpenWeather API") None))
        end
  end.

(** [fetchWeatherData]: the [catch] turns an AbortError into a timeout
    error and rethrows everything else. *)
Definition fetchWeatherData (city : jsstring) (upstream : FetchOutcome)
  : Completion WeatherData :=
  match fetchWeatherDataTry city upstream with
  | Normal d => Normal d
  | Throw (ThrownError n m) =>
      if strEq n (js "AbortError") then
        Throw (ThrownApi (ExternalApiError
          (js "Request timeout while fetching weather data")
          (js "OpenWeather API") None))
      else Throw (ThrownError n m)
  | Throw t => Throw t
  end.

(** *** The handler *)

Inductive ResponseBody :=
| BodyData (d : WeatherData)
| BodyError (e : ErrorBody).

Record Response := {
  status : Z;
  body : ResponseBody;
  xCache : option jsstring;
  cacheControl : option jsstring;
}.

Definition errorResponse (apiError : ApiError) : Response :=
  {| status := statusCode apiError;
     body := BodyError (createErrorResponse apiError);
     xCache := None;
     cacheControl := Some (js "no-cache, no-store, must-revalidate") |}.

Definition dataResponse (config : AppConfig) (d : WeatherData)
    (hitOrMiss : jsstring) : Response :=
  {| status := 200;
     body := BodyData d;
     xCache := Some hitOrMiss;
     cacheControl :=
       Some (js "public, max-age=" ++ numberToString (cacheTtlSeconds config)) |}.

(** [GET]: [now1] is the clock when the cache is read, [now2] when it is
    written after the upstream call, and [upstream] is how that call
    settles if it is made. *)
Definition GET (config : AppConfig) (cache : Cache) (now1 now2 : Z)
    (request : Request) (upstream : FetchOutcome) : Response * Cache :=
  if negb (strEq (method request) (js "GET")) then
    ({| status := 405;
        body := BodyError
                  (createErrorResponse (ValidationError (js "Method not allowed")));
        xCache := None; cacheControl := None |}, cache)
  else
    let city := cityParam request in
    let cityOrEmpty := orDefault city [] in
    match validateCity cityOrEmpty with
    | Throw (ThrownApi error) =>
        if strEq (name error) (js "ValidationError") then
          ({| status := statusCode error;
              body := BodyError (createErrorResponse error);
              xCache := None; cacheControl := None |}, cache)
        else (errorResponse (handleError (ThrownApi error)), cache)
    | Throw t => (errorResponse (handleError t), cache)
    | Normal _ =>
        let cacheKey := js "weather:" ++ toLowerCase cityOrEmpty in
        match getCachedData config cache now1 cacheKey with
        | (Some cachedData, cache1) =>
            (dataResponse config cachedData (js "HIT"), cache1)
        | (None, cache1) =>
            match fetchWeatherData cityOrEmpty upstream with
            | Throw t => (errorResponse (handleError t), cache1)
            | Normal weatherData =>
                match setCachedData config cache1 now2 cacheKey weatherData with
                | (Throw t, cache2) => (errorResponse (handleError t), cache2)
                | (Normal _, cache2) =>
                    (dataResponse config weatherData (js "MISS"), cache2)
                end
            end
        end
    end.

End Route.

(** ** The gating middleware ([src/middleware.ts]) *)

Record RateLimitEntry := {
  count : Z;
  resetTime : Z;
  lastRequest : Z;
  blockedUntil : option Z;
}.

Record RateLimitTier := {
  maxRequests : Z;
  windowMs : Z;
  blockDuration : Z;
}.

Module RATE_LIMIT_CONFIG.

Definition general : RateLimitTier :=
  {| maxRequests := 100;
     windowMs := 15 * 60 * 1000;
     blockDuration := 5 * 60 * 1000 |}.

Definition api : RateLimitTier :=
  {| maxRequests := 50;
     windowMs := 5 * 60 * 1000;
     blockDuration := 10 * 60 * 1000 |}.

Definition search : RateLimitTier :=
  {| maxRequests := 30;
     windowMs := 1 * 60 * 1000;
     blockDuration := 2 * 60 * 1000 |}.

End RATE_LIMIT_CONFIG.

Definition getClientIdentifier (request : Request) : jsstring :=
  let forwarded := headers request (js "x-forwarded-for") in
  let realIp := headers request (js "x-real-ip") in
  let cfConnectingIp := headers request (js "cf-connecting-ip") in
  let firstForwarded :=
    match forwarded with
    | Some f =>
        if truthy f then
          match split 44 f with
          | h :: _ => Some (trim h)
          | [] => None
          end
        else None
    | None => None
    end in
  let ip :=
    orDefault cfConnectingIp
      (orDefault realIp (orDefault firstForwarded (js "unknown"))) in
  let userAgent :=
    orDefault (headers request (js "user-agent")) (js "unknown") in
  ip ++ js ":" ++ userAgent.

Definition getRateLimitConfig (request : Request) : RateLimitTier :=
  let path := pathname request in
  if startsWith path (js "/api/weather") then RATE_LIMIT_CONFIG.api
  else if includes path (js "search") || includes path (js "suggest") then
    RATE_LIMIT_CONFIG.search
  else RATE_LIMIT_CONFIG.general.

Record RateLimitResult := {
  allowed : bool;
  retryAfter : option Z;
  blockRemaining : option Z;
}.

(** [clientData?.blockedUntil && now < clientData.blockedUntil]: a missing
    entry, a missing field and the number 0 are all falsy. *)
Definition blockedAt (clientData : option RateLimitEntry) (now : Z) : option Z :=
  match clientData with
  | Some cd =>
      match blockedUntil cd with
      | Some b => if negb (b =? 0) && (now <? b) then Some b else None
      | None => None
      end
  | None => None
  end.

(** [!clientData || now > clientData.resetTime]. *)
Definition windowExpired (clientData : option RateLimitEntry) (now : Z) : bool :=
  match clientData with
  | None => true
  | Some cd => resetTime cd <? now
  end.

Definition checkRateLimit (config : AppConfig)
    (rateLimitMap : gmap (list N) RateLimitEntry) (now : Z) (request : Request)
  : RateLimitResult * gmap (list N) RateLimitEntry :=
  if negb (enableRateLimiting config) then
    ({| allowed := true; retryAfter := None; blockRemaining := None |},
     rateLimitMap)
  else
    let clientId := getClientIdentifier request in
    let rateLimitConfig := getRateLimitConfig request in
    let clientData := rateLimitMap !! clientId in
    match blockedAt clientData now with
    | Some b =>
        ({| allowed := false; retryAfter := None;
            blockRemaining := Some (ceilDiv (b - now) 1000) |},
         rateLimitMap)
    | None =>
        match clientData with
        | Some cd =>
            if resetTime cd <? now then
              ({| allowed := true; retryAfter := None; blockRemaining := None |},
               <[clientId := {| count := 1;
                                resetTime := now + windowMs rateLimitConfig;
                                lastRequest := now;
                                blockedUntil := None |}]> rateLimitMap)
            else if maxRequests rateLimitConfig <=? count cd then
              ({| allowed := false;
                  retryAfter := Some (ceilDiv (blockDuration rateLimitConfig) 1000);
                  blockRemaining := None |},
               <[clientId := {| count := count cd;
                                resetTime := resetTime cd;
                                lastRequest := lastRequest cd;
                                blockedUntil :=
                                  Some (now + blockDuration rateLimitConfig) |}]>
                 rateLimitMap)
            else
              ({| allowed := true; retryAfter := None; blockRemaining := None |},
               <[clientId := {| count := count cd + 1;
                                resetTime := resetTime cd;
                                lastRequest := now;
                                blockedUntil := blockedUntil cd |}]>
                 rateLimitMap)
        | None =>
            ({| allowed := true; retryAfter := None; blockRemaining := None |},
             <[clientId := {| count := 1;
                              resetTime := now + windowMs rateLimitConfig;
                              lastRequest := now;
                              blockedUntil := None |}]> rateLimitMap)
        end
    end.

Definition validateTrustedHost (config : AppConfig) (request : Request) : bool :=
  match headers request (js "host") with
  | None => false
  | Some host => if negb (truthy host) then false else isTrustedHost config host
  end.

Definition headerPresent (request : Request) (header : jsstring) : bool :=
  match headers request header with
  | Some v => truthy v
  | None => false
  end.

Definition validateRequestHeaders (config : AppConfig) (request : Request) : bool :=
  if strEq (nodeEnv config) (js "development") then true
  else
    let suspiciousHeaders :=
      [js "x-forwarded-host"; js "x-original-url"; js "x-rewrite-url"] in
    negb (existsb (headerPresent request) suspiciousHeaders).

(** What the middleware answers: a response of its own with a status (and
    the [Retry-After] header, set when [retryAfter] is truthy), or
    [NextResponse.next()]. The security and CORS headers put on the latter
    are not modelled. *)
Inductive MiddlewareResponse :=
| Reject (status : Z) (retryAfterHeader : option Z)
| Next.

Definition middleware (config : AppConfig)
    (rateLimitMap : gmap (list N) RateLimitEntry) (now : Z) (request : Request)
  : MiddlewareResponse * gmap (list N) RateLimitEntry :=
  if negb (validateTrustedHost config request) then (Reject 403 None, rateLimitMap)
  else if negb (validateRequestHeaders config request) then
    (Reject 400 None, rateLimitMap)
  else if enableRateLimiting config then
    let '(rateLimitResult, rateLimitMap') :=
      checkRateLimit config rateLimitMap now request in
    if negb (allowed rateLimitResult) then
      (Reject 429
         match retryAfter rateLimitResult with
         | Some r => if r =? 0 then None else Some r
         | None => None
         end,
       rateLimitMap')
    else (Next, rateLimitMap')
  else (Next, rateLimitMap).

(** *** The matcher of [config]

    The one pattern is a slash followed by a group that holds the negative
    lookahead [(?!api|_next/static|_next/image|favicon.ico|robots.txt|sitemap.xml)]
    and then a starred dot. It is read as a regular expression that has to
    match the whole path: a slash, then none of the six alternatives of the
    lookahead, then any characters (a dot stands for any character but a
    line terminator, also in the alternatives). *)
Inductive PatternChar :=
| Lit (c : N)
| AnyChar.

Definition lits (s : string) : list PatternChar := map Lit (js s).

Definition matchChar (p : PatternChar) (c : N) : bool :=
  match p with
  | Lit d => N.eqb c d
  | AnyChar => negb (isLineTerminator c)
  end.

(** Does the pattern match a prefix of the string? *)
Fixpoint matchPrefix (p : list PatternChar) (s : jsstring) : bool :=
  match p, s with
  | [], _ => true
  | pc :: p', c :: s' => matchChar pc c && matchPrefix p' s'
  | _ :: _, [] => false
  end.

Definition lookaheadAlternatives : list (list PatternChar) :=
  [ lits "api";
    lits "_next/static";
    lits "_next/image";
    lits "favicon" ++ [AnyChar] ++ lits "ico";
    lits "robots" ++ [AnyChar] ++ lits "txt";
    lits "sitemap" ++ [AnyChar] ++ lits "xml" ].

Definition matcherMatches (path : jsstring) : bool :=
  match path with
  | c :: rest =>
      N.eqb c 47
      && negb (existsb (fun alt => matchPrefix alt rest) lookaheadAlternatives)
      && forallb (fun d => negb (isLineTerminator d)) rest
  | [] => false
  end.

(** The framework runs [middleware] on a request only when its path matches
    the matcher; otherwise the request goes to its route untouched ([None])
    and the rate-limit map is not consulted. *)
Definition dispatch (config : AppConfig)
    (rateLimitMap : gmap (list N) RateLimitEntry) (now : Z) (request : Request)
  : option MiddlewareResponse * gmap (list N) RateLimitEntry :=
  if matcherMatches (pathname request) then
    let '(r, m) := middleware config rateLimitMap now request in (Some r, m)
  else (None, rateLimitMap).

(** ** Runs of the rate limiter *)

(** A sequence of checks, each with the clock at its time, threaded through
    the shared map. *)
Fixpoint runChecks (config : AppConfig)
    (rateLimitMap : gmap (list N) RateLimitEntry) (events : list (Z * Request))
  : list RateLimitResult * gmap (list N) RateLimitEntry :=
  match events with
  | [] => ([], rateLimitMap)
  | (now, request) :: events' =>
      let '(result, m1) := checkRateLimit config rateLimitMap now request in
      let '(results, m2) := runChecks config m1 events' in
      (result :: results, m2)
  end.

(** The checks of a run that come from client [k]. *)
Definition fromClient (k : jsstring) (event : Z * Request) : bool :=
  strEq (getClientIdentifier (snd event)) k.

Definition allowedResult : RateLimitResult :=
  {| allowed := true; retryAfter := None; blockRemaining := None |}.

(** The entry a check writes when it opens a window. *)
Definition freshEntry (tier : RateLimitTier) (now : Z) : RateLimitEntry :=
  {| count := 1; resetTime := now + windowMs tier; lastRequest := now;
     blockedUntil := None |}.

(** An entry with its block moved to [until]. *)
Definition blockEntry (e : RateLimitEntry) (until : Z) : RateLimitEntry :=
  {| count := count e; resetTime := resetTime e; lastRequest := lastRequest e;
     blockedUntil := Some until |}.

(** ** Reading the specification's words *)

(** A letter, as far as the Basic Latin, Latin-1 Supplement and Latin
    Extended-A blocks go (general category L of Unicode). *)
Definition isLetter (c : N) : bool :=
  ((N.leb 65 c && N.leb c 90) || (N.leb 97 c && N.leb c 122)
   || N.eqb c 170 || N.eqb c 181 || N.eqb c 186
   || (N.leb 192 c && N.leb c 214) || (N.leb 216 c && N.leb c 246)
   || (N.leb 248 c && N.leb c 383))%N.

(** A letter of the Basic Latin block. *)
Definition isAsciiLetter (c : N) : Prop :=
  (65 <= c <= 90)%N \/ (97 <= c <= 122)%N.

(** [validateCity] throws a [ValidationError]. *)
Definition throwsValidationError (r : Completion unit) : Prop :=
  exists msg, r = Throw (ThrownApi (ValidationError msg)).

(** ** Sample data *)

Definition sampleConfig : AppConfig :=
  {| trustedHosts := [js "example.com"];
     cacheTtlSeconds := 300;
     cacheMaxSize := 100;
     nodeEnv := js "production";
     enableCache := true;
     enableRateLimiting := true |}.

(** A configuration with [CACHE_MAX_SIZE=0]. *)
Definition zeroSizeConfig : AppConfig :=
  {| trustedHosts := [js "example.com"];
     cacheTtlSeconds := 300;
     cacheMaxSize := 0;
     nodeEnv := js "production";
     enableCache := true;
     enableRateLimiting := true |}.

(** A GET request for [path] from the address [ip]. *)
Definition requestOf (path ip : jsstring) (city : option jsstring) : Request :=
  {| method := js "GET";
     pathname := path;
     cityParam := city;
     headers := fun h => if strEq h (js "x-real-ip") then Some ip else None |}.

Definition homeRequest : Request := requestOf (js "/") (js "10.0.0.1") None.

(** A request of the search tier from the same address. *)
Definition searchRequest : Request :=
  requestOf (js "/search") (js "10.0.0.1") None.

(** One check per millisecond: [n] checks from time [start] on. *)
Definition burst (request : Request) (start n : nat) : list (Z * Request) :=
  map (fun i => (Z.of_nat i, request)) (seq start n).

(** The map after 101 checks of the home page in the general tier: one
    hundred allowed, the last one blocked at time 100. *)
Definition blockedGeneralMap : gmap (list N) RateLimitEntry :=
  snd (runChecks sampleConfig ∅ (burst homeRequest 0 101)).

(** A configuration with room for two cached cities, and a cache that
    holds two. *)
Definition smallCacheConfig : AppConfig :=
  {| trustedHosts := [js "example.com"];
     cacheTtlSeconds := 300;
     cacheMaxSize := 2;
     nodeEnv := js "production";
     enableCache := true;
     enableRateLimiting := true |}.

Definition twoCities : @Cache unit :=
  [ (js "weather:durban", {| data := tt; timestamp := 20 |});
    (js "weather:cape town", {| data := tt; timestamp := 10 |}) ].

(** The error [fetchWeatherData] throws when the provider answers 401. *)
Definition invalidApiKeyError : ApiError :=
  ExternalApiError (js "Invalid API key for OpenWeather service")
                   (js "OpenWeather API") (Some 401).

(** The city name with a Latin-1 letter (U+00E3). *)
Definition saoPaulo : jsstring := js "S" ++ [227%N] ++ js "o Paulo".

(** ** CORS and security headers ([src/middleware.ts], [lib/config.ts]) *)

(** [Array.prototype.join]. *)
Fixpoint join (sep : jsstring) (l : list jsstring) : jsstring :=
  match l with
  | [] => []
  | x :: l' =>
      match l' with
      | [] => x
      | _ :: _ => x ++ sep ++ join sep l'
      end
  end.

(** The [allowedOrigins] field as [getConfig] computes it. *)
Definition configAllowedOrigins (env : Env) : list jsstring :=
  parseStringArray
    (getOptionalEnvVar env (js "ALLOWED_ORIGINS") (js "http://localhost:3000"))
    [js "http://localhost:3000"].

Record CorsConfig := {
  origin : list jsstring;
  methods : list jsstring;
  allowedHeaders : list jsstring;
  credentials : bool;
  maxAge : Z;
}.

(** [getCorsConfig], given the [allowedOrigins] of the configuration. *)
Definition getCorsConfig (allowedOrigins : list jsstring) : CorsConfig :=
  {| origin := allowedOrigins;
     methods := [js "GET"; js "POST"; js "PUT"; js "DELETE"; js "OPTIONS"];
     allowedHeaders :=
       [js "Content-Type"; js "Authorization"; js "X-Requested-With"];
     credentials := true;
     maxAge := 86400 |}.

(** The headers of a response: [Headers] ignores the case of a name, so
    the map is keyed by the name in lower case. *)
Definition setHeader (name value : jsstring)
    (h : gmap (list N) jsstring) : gmap (list N) jsstring :=
  <[toLowerCase name := value]> h.

Definition getHeader (name : jsstring) (h : gmap (list N) jsstring)
  : option jsstring :=
  h !! toLowerCase name.

Definition contentSecurityPolicy : jsstring :=
  join (js "; ")
    [ js "default-src 'self'";
      js "script-src 'self' 'unsafe-eval' 'unsafe-inline'";
      js "style-src 'self' 'unsafe-inline' https://fonts.googleapis.com";
      js "font-src 'self' https://fonts.gstatic.com";
      js "img-src 'self' data: https: blob:";
      js "connect-src 'self' https://api.openweathermap.org";
      js "frame-ancestors 'none'";
      js "base-uri 'self'";
      js "form-action 'self'";
      js "upgrade-insecure-requests" ].

Definition addSecurityHeaders (config : AppConfig)
    (response : gmap (list N) jsstring) : gmap (list N) jsstring :=
  let response := setHeader (js "X-Content-Type-Options") (js "nosniff") response in
  let response := setHeader (js "X-Frame-Options") (js "DENY") response in
  let response := setHeader (js "X-XSS-Protection") (js "1; mode=block") response in
  let response :=
    setHeader (js "Referrer-Policy") (js "strict-origin-when-cross-origin")
              response in
  let response :=
    setHeader (js "Permissions-Policy")
              (js "camera=(), microphone=(), geolocation=(), payment=()")
              response in
  let response := setHeader (js "X-DNS-Prefetch-Control") (js "off") response in
  let response := setHeader (js "X-Download-Options") (js "noopen") response in
  let response :=
    setHeader (js "X-Permitted-Cross-Domain-Policies") (js "none") response in
  let response :=
    setHeader (js "Content-Security-Policy") contentSecurityPolicy response in
  if strEq (nodeEnv config) (js "production") then
    setHeader (js "Strict-Transport-Security")
              (js "max-age=31536000; includeSubDomains; preload") response
  else response.

(** [origin && corsConfig.origin.includes(origin)]. *)
Definition originAllowed (corsConfig : CorsConfig) (o : option jsstring) : bool :=
  match o with
  | Some s => truthy s && existsb (strEq s) (origin corsConfig)
  | None => false
  end.

(** [handleCors]: the headers of the response it returns, and the headers
    of the response it was given after the call (a preflight request gets
    a response of its own and leaves the given one alone). *)
Definition handleCors (corsConfig : CorsConfig) (request : Request)
    (response : gmap (list N) jsstring)
  : gmap (list N) jsstring * gmap (list N) jsstring :=
  let o := headers request (js "origin") in
  if strEq (method request) (js "OPTIONS") then
    let preflightResponse : gmap (list N) jsstring := ∅ in
    let preflightResponse :=
      if originAllowed corsConfig o then
        setHeader (js "Access-Control-Allow-Origin") (orDefault o [])
                  preflightResponse
      else preflightResponse in
    let preflightResponse :=
      setHeader (js "Access-Control-Allow-Methods")
                (join (js ", ") (methods corsConfig)) preflightResponse in
    let preflightResponse :=
      setHeader (js "Access-Control-Allow-Headers")
                (join (js ", ") (allowedHeaders corsConfig)) preflightResponse in
    let preflightResponse :=
      setHeader (js "Access-Control-Max-Age")
                (numberToString (maxAge corsConfig)) preflightResponse in
    let preflightResponse :=
      if credentials corsConfig then
        setHeader (js "Access-Control-Allow-Credentials") (js "true")
                  preflightResponse
      else preflightResponse in
    (preflightResponse, response)
  else
    let response :=
      if originAllowed corsConfig o then
        setHeader (js "Access-Control-Allow-Origin") (orDefault o []) response
      else response in
    let response :=
      if credentials corsConfig then
        setHeader (js "Access-Control-Allow-Credentials") (js "true") response
      else response in
    (response, response).

(** The headers of the response [middleware] returns when it lets the
    request through: [next] are the headers [NextResponse.next()] starts
    with; the value [handleCors] returns is dropped. *)
Definition middlewareNextHeaders (config : AppConfig) (corsConfig : CorsConfig)
    (request : Request) (next : gmap (list N) jsstring)
  : gmap (list N) jsstring :=
  snd (handleCors corsConfig request (addSecurityHeaders config next)).

(** The results of a run that belong to the checks of client [k]. *)
Definition resultsFor (k : jsstring) (events : list (Z * Request))
    (results : list RateLimitResult) : list RateLimitResult :=
  map snd (List.filter (fun p => fromClient k (fst p)) (combine events results)).


(** * Properties *)

(** ** Strings *)

Lemma strEq_true (s t : jsstring) : strEq s t = true <-> s = t.
Proof.
  revert t; induction s as [|c s IH]; intros [|d t]; simpl; split;
    try congruence; try reflexivity.
  - intros H. apply andb_true_iff in H as [Hc Hs].
    apply N.eqb_eq in Hc. apply IH in Hs. congruence.
  - intros H. injection H as -> ->.
    rewrite N.eqb_refl. simpl. now apply IH.
Qed.

Lemma strEq_refl (s : jsstring) : strEq s s = true.
Proof. now apply strEq_true. Qed.

Lemma strEq_false (s t : jsstring) : strEq s t = false <-> s <> t.
Proof.
  split.
  - intros H E. apply strEq_true in E. congruence.
  - intros H. destruct (strEq s t) eqn:E; [|reflexivity].
    apply strEq_true in E. contradiction.
Qed.

Lemma startsWith_prefix (s p : jsstring) :
  startsWith s p = true <-> exists rest, s = p ++ rest.
Proof.
  revert s; induction p as [|c p IH]; intros [|d s]; simpl.
  - split; [intros _; now exists [] | reflexivity].
  - split; [intros _; now exists (d :: s) | reflexivity].
  - split; [discriminate | intros [rest H]; discriminate].
  - rewrite andb_true_iff, N.eqb_eq, IH. split.
    + intros [-> [rest ->]]. now exists rest.
    + intros [rest H]. injection H as -> ->. split; [reflexivity | now exists rest].
Qed.

Lemma endsWith_suffix (s t : jsstring) :
  endsWith s t = true <-> exists front, s = front ++ t.
Proof.
  unfold endsWith. rewrite startsWith_prefix. split.
  - intros [rest H]. exists (rev rest).
    rewrite <- (rev_involutive s), H, rev_app_distr, rev_involutive.
    reflexivity.
  - intros [front ->]. exists (rev front). apply rev_app_distr.
Qed.

Lemma trimStart_nil (s : jsstring) :
  trimStart s = [] <-> Forall (fun c => isWhiteSpace c = true) s.
Proof.
  induction s as [|c s IH]; simpl.
  - split; [constructor | reflexivity].
  - destruct (isWhiteSpace c) eqn:E.
    + rewrite IH. split; [now constructor | now inversion 1].
    + split; [discriminate | inversion 1; congruence].
Qed.

Lemma trim_nil (s : jsstring) :
  trim s = [] <-> Forall (fun c => isWhiteSpace c = true) s.
Proof.
  unfold trim. split.
  - intros H.
    assert (H1 : trimStart (rev (trimStart s)) = []).
    { rewrite <- (rev_involutive (trimStart _)), H. reflexivity. }
    apply trimStart_nil in H1.
    assert (H2 : Forall (fun c => isWhiteSpace c = true) (trimStart s)).
    { rewrite <- (rev_involutive (trimStart s)). now apply Forall_rev. }
    clear H H1. induction s as [|c s IH]; [constructor|].
    simpl in H2. destruct (isWhiteSpace c) eqn:E.
    + constructor; auto.
    + inversion H2; congruence.
  - intros H. apply trimStart_nil in H. rewrite H. reflexivity.
Qed.

Lemma ceilDiv_bounds (x d : Z) :
  0 < d -> d * (ceilDiv x d - 1) < x <= d * ceilDiv x d.
Proof.
  intros Hd. unfold ceilDiv.
  pose proof (Z.mul_div_le (- x) d Hd).
  pose proof (Z.mul_succ_div_gt (- x) d Hd).
  nia.
Qed.

(** ** Trusted hosts *)

Lemma configTrustedHosts_truthy (env : Env) (th : jsstring) :
  In th (configTrustedHosts env) -> truthy th = true.
Proof.
  unfold configTrustedHosts, parseStringArray.
  destruct (negb (truthy _)).
  - simpl. intros [<- | [<- | []]]; reflexivity.
  - intros H. apply filter_In in H. apply H.
Qed.

Lemma isTrustedHost_empty (config : AppConfig) :
  (forall th, In th (trustedHosts config) -> truthy th = true) ->
  isTrustedHost config [] = false.
Proof.
  intros H. unfold isTrustedHost.
  destruct (existsb _ _) eqn:E; [|reflexivity].
  apply existsb_exists in E as (th & Hin & Hth).
  apply H in Hin. destruct th as [|c th]; [discriminate|].
  apply orb_true_iff in Hth as [Hth | Hth]; [discriminate|].
  apply endsWith_suffix in Hth as [front Hf].
  destruct front; discriminate.
Qed.

(** C5. [isTrustedHost] holds exactly when the host equals a configured
    trusted host or ends with a dot followed by one. With example.com
    configured, api.example.com is trusted; with only example.com
    configured, evilexample.com is not. The empty host is trusted under no
    configuration that [getConfig] can build from the environment, and
    [validateTrustedHost] refuses a missing or empty Host header. *)
Theorem isTrustedHost_exact_or_subdomain (config : AppConfig) (host : jsstring) :
  (isTrustedHost config host = true <->
   exists trustedHost, In trustedHost (trustedHosts config) /\
     (host = trustedHost \/ exists front, host = front ++ js "." ++ trustedHost))
  /\ (In (js "example.com") (trustedHosts config) ->
      isTrustedHost config (js "api.example.com") = true)
  /\ (trustedHosts config = [js "example.com"] ->
      isTrustedHost config (js "evilexample.com") = false)
  /\ (forall env, trustedHosts config = configTrustedHosts env ->
      isTrustedHost config [] = false)
  /\ (forall request,
      headers request (js "host") = None \/ headers request (js "host") = Some [] ->
      validateTrustedHost config request = false).
Proof.
  assert (Hiff : forall h, isTrustedHost config h = true <->
    exists trustedHost, In trustedHost (trustedHosts config) /\
      (h = trustedHost \/ exists front, h = front ++ js "." ++ trustedHost)).
  { intros h. unfold isTrustedHost. rewrite existsb_exists.
    split; intros (th & Hin & H); exists th; (split; [exact Hin|]).
    - apply orb_true_iff in H as [H | H].
      + left. now apply strEq_true.
      + right. now apply endsWith_suffix.
    - apply orb_true_iff. destruct H as [H | H].
      + left. now apply strEq_true.
      + right. now apply endsWith_suffix. }
  split; [apply Hiff|]. split; [|split; [|split]].
  - intros Hin. apply Hiff. exists (js "example.com"). split; [exact Hin|].
    right. exists (js "api"). reflexivity.
  - intros Hcfg. unfold isTrustedHost. rewrite Hcfg. reflexivity.
  - intros env Hcfg. apply isTrustedHost_empty. rewrite Hcfg.
    apply configTrustedHosts_truthy.
  - intros request [H | H]; unfold validateTrustedHost; rewrite H; reflexivity.
Qed.

Lemma isTrustedHost_exact_or_subdomain_witness :
  isTrustedHost sampleConfig (js "api.example.com") = true
  /\ isTrustedHost sampleConfig (js "evilexample.com") = false.
Proof.
  pose proof (isTrustedHost_exact_or_subdomain sampleConfig (js "example.com"))
    as (_ & Hsub & Hevil & _).
  split.
  - apply Hsub. simpl. left. reflexivity.
  - apply Hevil. reflexivity.
Defined.

(** ** City validation *)

Lemma filter_fixed {A : Type} (f : A -> bool) (l : list A) :
  List.filter f l = l <-> Forall (fun x => f x = true) l.
Proof.
  split.
  - induction l as [|x l IH]; simpl; [constructor|].
    destruct (f x) eqn:E.
    + intros H. injection H as H. constructor; auto.
    + intros H.
      assert (Hlen : (length (List.filter f l) <= length l)%nat).
      { clear. induction l as [|y l IH]; simpl; [lia|].
        destruct (f y); simpl; lia. }
      rewrite H in Hlen. simpl in Hlen. lia.
  - induction 1 as [|x l Hx _ IH]; simpl; [reflexivity|].
    rewrite Hx, IH. reflexivity.
Qed.

Lemma cityCharAllowed_spec (c : N) :
  cityCharAllowed c = true <->
  isAsciiLetter c \/ isWhiteSpace c = true \/ c = 45%N \/ c = 39%N.
Proof.
  unfold cityCharAllowed, isAsciiLetter.
  rewrite !orb_true_iff, !andb_true_iff, !N.leb_le, !N.eqb_eq.
  tauto.
Qed.

Lemma validateCity_outcomes (city : jsstring) :
  validateCity city = Normal tt \/ throwsValidationError (validateCity city).
Proof.
  unfold validateCity, throwsValidationError.
  repeat match goal with
         | |- context [if ?b then _ else _] => destruct b
         end; eauto.
Qed.

Lemma validateCity_throws_iff (city : jsstring) :
  throwsValidationError (validateCity city) <->
  city = [] \/ Forall (fun c => isWhiteSpace c = true) city
  \/ (100 < length city)%nat
  \/ Exists (fun c => cityCharAllowed c = false) city.
Proof.
  unfold validateCity, throwsValidationError.
  destruct city as [|c0 city].
  { split; [intros _; now left | intros _; eexists; reflexivity]. }
  change (negb (truthy (c0 :: city))) with false. cbv iota.
  set (s := c0 :: city).
  destruct (Nat.eqb (length (trim s)) 0) eqn:Etrim.
  { split; [intros _ | eauto]. right; left.
    apply trim_nil. apply Nat.eqb_eq in Etrim.
    destruct (trim s); [reflexivity | discriminate]. }
  destruct (Nat.ltb 100 (length s)) eqn:Elen.
  { split; [intros _ | eauto]. apply Nat.ltb_lt in Elen. tauto. }
  assert (Hnw : ~ Forall (fun c => isWhiteSpace c = true) s).
  { intros H. apply trim_nil in H. rewrite H in Etrim. discriminate. }
  apply Nat.ltb_ge in Elen. cbv zeta.
  destruct (strEq (List.filter cityCharAllowed s) s) eqn:Esan; cbn [negb]; cbv iota.
  - apply strEq_true, filter_fixed in Esan.
    split; [intros [msg H]; discriminate|].
    intros [H | [H | [H | H]]]; [unfold s in H; discriminate | contradiction | lia |].
    apply List.Exists_exists in H as (c & Hin & Hc).
    rewrite List.Forall_forall in Esan. apply Esan in Hin. congruence.
  - split; [intros _ | eauto]. right; right; right.
    apply strEq_false in Esan.
    apply List.Exists_exists.
    destruct (forallb cityCharAllowed s) eqn:Eall.
    + exfalso. apply Esan. apply filter_fixed.
      apply List.Forall_forall. intros x Hx.
      rewrite forallb_forall in Eall. auto.
    + clear -Eall. induction s as [|x s IH]; [discriminate|].
      simpl in Eall. apply andb_false_iff in Eall as [H | H].
      * exists x. split; [now left | exact H].
      * destruct (IH H) as (y & Hy & Hb). exists y. split; [now right | exact Hb].
Qed.

(** C7 (amended). [validateCity] throws a [ValidationError] exactly when the
    city is empty, consists of white space only, is longer than 100 code
    units, or holds a code unit that is neither a Basic Latin letter
    (a-z, A-Z), nor a white-space character (any that the class [\s]
    matches), nor a hyphen, nor an apostrophe; otherwise it returns. It
    rejects the empty string, every string of 101 code units and
    London<script>, and it accepts Cape Town and O'ahu. *)
Theorem validateCity_throws_exactly (city : jsstring) :
  (throwsValidationError (validateCity city) <->
   city = [] \/ Forall (fun c => isWhiteSpace c = true) city
   \/ (100 < length city)%nat
   \/ Exists (fun c => ~ (isAsciiLetter c \/ isWhiteSpace c = true
                          \/ c = 45%N \/ c = 39%N)) city)
  /\ (~ throwsValidationError (validateCity city) -> validateCity city = Normal tt)
  /\ throwsValidationError (validateCity [])
  /\ (length city = 101%nat -> throwsValidationError (validateCity city))
  /\ throwsValidationError (validateCity (js "London<script>"))
  /\ validateCity (js "Cape Town") = Normal tt
  /\ validateCity (js "O'ahu") = Normal tt.
Proof.
  assert (Hbad : Exists (fun c => cityCharAllowed c = false) city <->
                 Exists (fun c => ~ (isAsciiLetter c \/ isWhiteSpace c = true
                                     \/ c = 45%N \/ c = 39%N)) city).
  { rewrite !List.Exists_exists. split; intros (c & Hin & Hc); exists c; (split; [exact Hin|]).
    - rewrite <- cityCharAllowed_spec. congruence.
    - rewrite <- cityCharAllowed_spec in Hc. now destruct (cityCharAllowed c). }
  split; [rewrite validateCity_throws_iff, Hbad; reflexivity|].
  split; [destruct (validateCity_outcomes city); tauto|].
  split; [apply validateCity_throws_iff; now left|].
  split; [intros H; apply validateCity_throws_iff; right; right; left; lia|].
  split; [eexists; reflexivity|].
  split; reflexivity.
Qed.

Lemma validateCity_throws_exactly_witness :
  throwsValidationError
    (validateCity (repeat 97%N 101)).
Proof.
  destruct (validateCity_throws_exactly (repeat 97%N 101))
    as (_ & _ & _ & H & _).
  apply H. reflexivity.
Defined.

(** C7 as the specification words it fails on a name with a letter outside
    a-z and A-Z: Sao Paulo written with its tilde is not empty, not blank,
    nine code units long and made of letters and one space only, and
    [validateCity] throws on it. *)
Lemma validateCity_rejects_letters_only_name :
  throwsValidationError (validateCity saoPaulo)
  /\ saoPaulo <> []
  /\ ~ Forall (fun c => isWhiteSpace c = true) saoPaulo
  /\ (length saoPaulo <= 100)%nat
  /\ Forall (fun c => isLetter c = true \/ c = 32%N \/ c = 45%N \/ c = 39%N)
            saoPaulo.
Proof.
  split; [eexists; reflexivity|].
  split; [discriminate|].
  split; [intros H; inversion H; discriminate|].
  split; [simpl; lia|].
  unfold saoPaulo; simpl.
  repeat (apply List.Forall_cons;
          [first [left; reflexivity | right; left; reflexivity]|]).
  apply List.Forall_nil.
Qed.

(** C10. The letter check of [validateCity] is the class a-z, A-Z: a city
    that holds a code unit outside Basic Latin that is not white space, as
    every letter outside Basic Latin is, makes it throw a
    [ValidationError]. Sao Paulo written with its tilde is such a name,
    although it is made of letters and a space only. *)
Theorem validateCity_rejects_non_ascii_letters (city : jsstring) (c : N) :
  (In c city -> (128 <= c)%N -> isWhiteSpace c = false ->
   throwsValidationError (validateCity city))
  /\ (isLetter c = true -> (128 <= c)%N -> isWhiteSpace c = false)
  /\ (In c city -> isLetter c = true -> (128 <= c)%N ->
      throwsValidationError (validateCity city))
  /\ throwsValidationError (validateCity saoPaulo)
  /\ Forall (fun d => isLetter d = true \/ d = 32%N) saoPaulo.
Proof.
  assert (H1 : In c city -> (128 <= c)%N -> isWhiteSpace c = false ->
               throwsValidationError (validateCity city)).
  { intros Hin Hc Hws. apply validateCity_throws_iff. right; right; right.
    apply List.Exists_exists. exists c. split; [exact Hin|].
    destruct (cityCharAllowed c) eqn:E; [|reflexivity].
    apply cityCharAllowed_spec in E. unfold isAsciiLetter in E.
    destruct E as [E | [E | E]]; [lia | congruence | lia]. }
  assert (H2 : isLetter c = true -> (128 <= c)%N -> isWhiteSpace c = false).
  { unfold isLetter, isWhiteSpace. intros Hl Hc.
    rewrite !orb_true_iff, !andb_true_iff, !N.leb_le, !N.eqb_eq in Hl.
    rewrite !orb_false_iff, !andb_false_iff, !N.leb_gt, !N.eqb_neq.
    lia. }
  split; [exact H1|]. split; [exact H2|].
  split; [intros Hin Hl Hc; apply H1; auto|].
  split; [eexists; reflexivity|].
  unfold saoPaulo; simpl.
  repeat (apply List.Forall_cons;
          [first [left; reflexivity | right; reflexivity]|]).
  apply List.Forall_nil.
Qed.

Lemma validateCity_rejects_non_ascii_letters_witness :
  throwsValidationError (validateCity saoPaulo).
Proof.
  destruct (validateCity_rejects_non_ascii_letters saoPaulo 227%N)
    as (_ & _ & H & _).
  apply H.
  - simpl. right. left. reflexivity.
  - reflexivity.
  - lia.
Defined.

(** ** The rate limiter, one check at a time *)

Section CheckRateLimit.

Variable config : AppConfig.
Hypothesis enabled : enableRateLimiting config = true.

Variable m : gmap (list N) RateLimitEntry.
Variable now : Z.
Variable request : Request.

Let k := getClientIdentifier request.
Let tier := getRateLimitConfig request.

(** A client inside its block is refused and nothing is written. *)
Lemma check_blocked (e : RateLimitEntry) (b : Z) :
  m !! k = Some e -> blockedUntil e = Some b -> b <> 0 -> now < b ->
  checkRateLimit config m now request =
  ({| allowed := false; retryAfter := None;
      blockRemaining := Some (ceilDiv (b - now) 1000) |}, m).
Proof.
  intros Hm Hb Hnz Hlt. unfold checkRateLimit. rewrite enabled. cbn [negb].
  fold k. rewrite Hm. unfold blockedAt. rewrite Hb.
  destruct (Z.eqb_spec b 0); [contradiction|].
  destruct (Z.ltb_spec now b); [|lia]. reflexivity.
Qed.

(** Without a block and without a running window the check opens one. *)
Lemma check_fresh :
  blockedAt (m !! k) now = None -> windowExpired (m !! k) now = true ->
  checkRateLimit config m now request =
  (allowedResult, <[k := freshEntry tier now]> m).
Proof.
  intros Hb Hw. unfold checkRateLimit. rewrite enabled. cbn [negb].
  fold k tier. rewrite Hb.
  destruct (m !! k) as [e|]; [|reflexivity].
  simpl in Hw. rewrite Hw. reflexivity.
Qed.

(** At the limit inside the window the client is refused and blocked. *)
Lemma check_limit (e : RateLimitEntry) :
  m !! k = Some e -> blockedAt (Some e) now = None ->
  now <= resetTime e -> maxRequests tier <= count e ->
  checkRateLimit config m now request =
  ({| allowed := false;
      retryAfter := Some (ceilDiv (blockDuration tier) 1000);
      blockRemaining := None |},
   <[k := blockEntry e (now + blockDuration tier)]> m).
Proof.
  intros Hm Hb Hw Hc. unfold checkRateLimit. rewrite enabled. cbn [negb].
  fold k tier. rewrite Hm, Hb.
  destruct (Z.ltb_spec (resetTime e) now); [lia|].
  destruct (Z.leb_spec (maxRequests tier) (count e)); [|lia]. reflexivity.
Qed.

(** Below the limit inside the window the request is counted. *)
Lemma check_counted (e : RateLimitEntry) :
  m !! k = Some e -> blockedAt (Some e) now = None ->
  now <= resetTime e -> count e < maxRequests tier ->
  checkRateLimit config m now request =
  (allowedResult,
   <[k := {| count := count e + 1; resetTime := resetTime e;
             lastRequest := now; blockedUntil := blockedUntil e |}]> m).
Proof.
  intros Hm Hb Hw Hc. unfold checkRateLimit. rewrite enabled. cbn [negb].
  fold k tier. rewrite Hm, Hb.
  destruct (Z.ltb_spec (resetTime e) now); [lia|].
  destruct (Z.leb_spec (maxRequests tier) (count e)); [lia|]. reflexivity.
Qed.

(** A check touches the entry of its own client only. *)
Lemma check_other_client (k' : jsstring) :
  k' <> k ->
  snd (checkRateLimit config m now request) !! k' = m !! k'.
Proof.
  intros Hne. unfold checkRateLimit. fold k tier.
  destruct (negb _); [reflexivity|].
  destruct (blockedAt _ _); [reflexivity|].
  destruct (m !! k) as [e|]; simpl.
  - destruct (_ <? _); [|destruct (_ <=? _)]; simpl;
      now rewrite lookup_insert_ne.
  - now rewrite lookup_insert_ne.
Qed.

(** Inside the window an entry at or over the limit is refused, whether by
    its block or by its count, and keeps its count and its window. *)
Lemma check_over_limit (e : RateLimitEntry) :
  m !! k = Some e -> now <= resetTime e -> maxRequests tier <= count e ->
  exists e',
    allowed (fst (checkRateLimit config m now request)) = false
    /\ snd (checkRateLimit config m now request) !! k = Some e'
    /\ count e' = count e /\ resetTime e' = resetTime e.
Proof.
  intros Hm Hw Hc.
  destruct (blockedAt (Some e) now) as [b|] eqn:Hb.
  - exists e. unfold checkRateLimit. rewrite enabled. cbn [negb].
    fold k. rewrite Hm, Hb. simpl. auto.
  - rewrite (check_limit e Hm Hb Hw Hc). simpl.
    rewrite lookup_insert_eq. eexists. split; [reflexivity|].
    split; [reflexivity|]. split; reflexivity.
Qed.

End CheckRateLimit.

Lemma getRateLimitConfig_cases (request : Request) :
  getRateLimitConfig request = RATE_LIMIT_CONFIG.api
  \/ getRateLimitConfig request = RATE_LIMIT_CONFIG.search
  \/ getRateLimitConfig request = RATE_LIMIT_CONFIG.general.
Proof.
  unfold getRateLimitConfig.
  destruct (startsWith _ _); [now left|].
  destruct (_ || _); [right; now left | right; now right].
Qed.

Lemma retryAfter_seconds (request : Request) :
  ceilDiv (blockDuration (getRateLimitConfig request)) 1000 =
  blockDuration (getRateLimitConfig request) / 1000.
Proof.
  destruct (getRateLimitConfig_cases request) as [-> | [-> | ->]]; reflexivity.
Qed.

(** ** The rate limiter over a run of checks *)

(** While the window lasts and the limit is not reached, every check of
    client [k] is allowed and counted; the checks of other clients do not
    matter. *)
Lemma run_counts_window (config : AppConfig) (k : jsstring)
    (tier : RateLimitTier) (R : Z) :
  enableRateLimiting config = true ->
  forall (events : list (Z * Request)) (m : gmap (list N) RateLimitEntry)
         (e : RateLimitEntry),
    m !! k = Some e -> blockedUntil e = None -> resetTime e = R ->
    Forall (fun ev => fromClient k ev = true ->
                      getRateLimitConfig (snd ev) = tier /\ fst ev <= R) events ->
    count e + Z.of_nat (length (List.filter (fromClient k) events))
      <= maxRequests tier ->
    exists results m2 e2,
      runChecks config m events = (results, m2)
      /\ Forall2 (fun ev res => fromClient k ev = true -> res = allowedResult)
                 events results
      /\ m2 !! k = Some e2 /\ blockedUntil e2 = None /\ resetTime e2 = R
      /\ count e2 =
         count e + Z.of_nat (length (List.filter (fromClient k) events)).
Proof.
  intros Hen. induction events as [|[t r] events IH]; intros m e Hm Hb HR Hall Hcnt.
  - exists [], m, e. simpl. repeat split; auto. lia.
  - apply List.Forall_cons_iff in Hall as [Hev Hall].
    assert (Hfc : fromClient k (t, r) = strEq (getClientIdentifier r) k)
      by reflexivity.
    cbn [runChecks List.filter] in *. rewrite Hfc in Hev, Hcnt |- *.
    destruct (strEq (getClientIdentifier r) k) eqn:Ek.
    + destruct (Hev eq_refl) as [Htier Ht]. cbn [fst snd] in Htier, Ht.
      apply strEq_true in Ek. cbn [length] in Hcnt.
      assert (Hstep : checkRateLimit config m t r =
        (allowedResult,
         <[k := {| count := count e + 1; resetTime := resetTime e;
                   lastRequest := t; blockedUntil := blockedUntil e |}]> m)).
      { rewrite <- Ek. apply check_counted; rewrite ?Ek, ?Htier; auto.
        - unfold blockedAt. now rewrite Hb.
        - lia.
        - lia. }
      rewrite Hstep.
      set (e1 := {| count := count e + 1; resetTime := resetTime e;
                    lastRequest := t; blockedUntil := blockedUntil e |}).
      destruct (IH (<[k := e1]> m) e1 ltac:(apply lookup_insert_eq))
        as (results & m2 & e2 & Hrun & Hres & Hm2 & Hb2 & HR2 & Hc2);
        [exact Hb | exact HR | exact Hall | unfold e1; cbn [count]; lia |].
      rewrite Hrun. exists (allowedResult :: results), m2, e2.
      unfold e1 in Hc2; cbn [count] in Hc2.
      split; [reflexivity|]. split; [constructor; auto|].
      split; [exact Hm2|]. split; [exact Hb2|]. split; [exact HR2|].
      rewrite Hc2. cbn [length]. lia.
    + apply strEq_false in Ek.
      destruct (checkRateLimit config m t r) as [res m1] eqn:Hstep.
      assert (Hm1 : m1 !! k = Some e).
      { replace m1 with (snd (checkRateLimit config m t r)) by now rewrite Hstep.
        rewrite check_other_client; auto. }
      destruct (IH m1 e Hm1 Hb HR Hall Hcnt)
        as (results & m2 & e2 & Hrun & Hres & Hm2 & Hb2 & HR2 & Hc2).
      rewrite Hrun. exists (res :: results), m2, e2.
      split; [reflexivity|]. split.
      { constructor; [|exact Hres]. rewrite Hfc. discriminate. }
      auto.
Qed.

(** Inside the window every check of a client over the limit is refused. *)
Lemma run_refused_in_window (config : AppConfig) (k : jsstring) (c R : Z) :
  enableRateLimiting config = true ->
  forall (events : list (Z * Request)) (m : gmap (list N) RateLimitEntry)
         (e : RateLimitEntry),
    m !! k = Some e -> count e = c -> resetTime e = R ->
    Forall (fun ev => getClientIdentifier (snd ev) = k /\ fst ev <= R
                      /\ maxRequests (getRateLimitConfig (snd ev)) <= c) events ->
    Forall (fun res => allowed res = false) (fst (runChecks config m events)).
Proof.
  intros Hen. induction events as [|[t r] events IH]; intros m e Hm Hc HR Hall.
  - constructor.
  - apply List.Forall_cons_iff in Hall as [(Hk & Ht & Hmax) Hall]. simpl in *.
    subst k.
    destruct (check_over_limit config Hen m t r e Hm)
      as (e' & Hden & Hm' & Hc' & HR'); [lia | lia |].
    destruct (checkRateLimit config m t r) as [res m1]. simpl in *.
    specialize (IH m1 e' Hm').
    destruct (runChecks config m1 events) as [results m2]. simpl in *.
    constructor; [exact Hden|]. apply IH; [lia | lia | exact Hall].
Qed.

(** C2. Rate limiting being on, let a check of a client at time [t0] open
    a window (no block in force, no running window). Then that check and
    the following checks of the client inside the window are allowed until
    [maxRequests] of them have been allowed, whatever other clients do in
    between; the next check of the client inside the window is refused, the
    result carries [retryAfter = blockDuration / 1000], and the entry gets
    [blockedUntil = now + blockDuration]. *)
Theorem limit_reached_blocks (config : AppConfig)
    (m : gmap (list N) RateLimitEntry) (r0 : Request) (t0 : Z)
    (events : list (Z * Request)) (r : Request) (t : Z) :
  enableRateLimiting config = true ->
  blockedAt (m !! getClientIdentifier r0) t0 = None ->
  windowExpired (m !! getClientIdentifier r0) t0 = true ->
  Forall (fun ev => fromClient (getClientIdentifier r0) ev = true ->
                    getRateLimitConfig (snd ev) = getRateLimitConfig r0
                    /\ fst ev <= t0 + windowMs (getRateLimitConfig r0)) events ->
  1 + Z.of_nat (length (List.filter (fromClient (getClientIdentifier r0)) events))
    = maxRequests (getRateLimitConfig r0) ->
  getClientIdentifier r = getClientIdentifier r0 ->
  getRateLimitConfig r = getRateLimitConfig r0 ->
  t <= t0 + windowMs (getRateLimitConfig r0) ->
  exists m1 results m2 e,
    checkRateLimit config m t0 r0 = (allowedResult, m1)
    /\ runChecks config m1 events = (results, m2)
    /\ Forall2 (fun ev res => fromClient (getClientIdentifier r0) ev = true ->
                              res = allowedResult) events results
    /\ m2 !! getClientIdentifier r0 = Some e
    /\ count e = maxRequests (getRateLimitConfig r0)
    /\ checkRateLimit config m2 t r =
       ({| allowed := false;
           retryAfter := Some (blockDuration (getRateLimitConfig r0) / 1000);
           blockRemaining := None |},
        <[getClientIdentifier r0 :=
            blockEntry e (t + blockDuration (getRateLimitConfig r0))]> m2).
Proof.
  intros Hen Hb Hw Hall Hcnt Hk Htier Ht.
  set (k := getClientIdentifier r0) in *.
  set (tier := getRateLimitConfig r0) in *.
  pose proof (check_fresh config Hen m t0 r0 Hb Hw) as Hfirst.
  fold k tier in Hfirst.
  destruct (run_counts_window config k tier (t0 + windowMs tier) Hen events
              (<[k := freshEntry tier t0]> m) (freshEntry tier t0))
    as (results & m2 & e & Hrun & Hres & Hm2 & Hb2 & HR2 & Hc2);
    [apply lookup_insert_eq | reflexivity | reflexivity | exact Hall
    | cbn [freshEntry count]; lia |].
  cbn [freshEntry count] in Hc2.
  exists (<[k := freshEntry tier t0]> m), results, m2, e.
  split; [exact Hfirst|]. split; [exact Hrun|]. split; [exact Hres|].
  split; [exact Hm2|]. split; [lia|].
  assert (Hra : ceilDiv (blockDuration tier) 1000 = blockDuration tier / 1000)
    by apply retryAfter_seconds.
  rewrite <- Hra.
  rewrite <- Hk, <- Htier.
  apply check_limit; rewrite ?Hk, ?Htier; fold k tier; auto.
  - unfold blockedAt. now rewrite Hb2.
  - lia.
  - lia.
Qed.

Lemma limit_reached_blocks_witness :
  exists m1 results m2 e,
    checkRateLimit sampleConfig ∅ 0 searchRequest = (allowedResult, m1)
    /\ runChecks sampleConfig m1 (burst searchRequest 1 29) = (results, m2)
    /\ Forall2 (fun ev res => fromClient (getClientIdentifier searchRequest) ev = true ->
                              res = allowedResult)
               (burst searchRequest 1 29) results
    /\ m2 !! getClientIdentifier searchRequest = Some e
    /\ count e = 30
    /\ checkRateLimit sampleConfig m2 30 searchRequest =
       ({| allowed := false; retryAfter := Some 120; blockRemaining := None |},
        <[getClientIdentifier searchRequest := blockEntry e 120030]> m2).
Proof.
  apply (limit_reached_blocks sampleConfig ∅ searchRequest 0
           (burst searchRequest 1 29) searchRequest 30).
  - reflexivity.
  - reflexivity.
  - reflexivity.
  - apply List.Forall_forall. intros [ti ri] Hin _.
    apply in_map_iff in Hin as (i & Heq & Hi).
    apply in_seq in Hi. injection Heq as <- <-.
    split; [reflexivity | simpl; lia].
  - reflexivity.
  - reflexivity.
  - reflexivity.
  - simpl. lia.
Defined.

(** C3 (amended). Rate limiting being on and the clock showing a time
    that is not negative, let the entry of a client have [blockedUntil]
    set. Every check at [now < blockedUntil] is refused with
    [blockRemaining = ceil((blockedUntil - now) / 1000)] and writes
    nothing. The first check at [now >= blockedUntil] opens a fresh window
    (count 1, new reset time, allowed) when the old window is over as well,
    [now > resetTime]; that is so for every block that the api or the
    search tier set inside a window of their own, their block being longer
    than their window. *)
Theorem blocked_until_then_fresh_after_window (config : AppConfig)
    (m : gmap (list N) RateLimitEntry) (request : Request) (now : Z)
    (e : RateLimitEntry) (b : Z) :
  enableRateLimiting config = true ->
  0 <= now ->
  m !! getClientIdentifier request = Some e ->
  blockedUntil e = Some b ->
  (now < b ->
   checkRateLimit config m now request =
   ({| allowed := false; retryAfter := None;
       blockRemaining := Some (ceilDiv (b - now) 1000) |}, m)
   /\ 1000 * (ceilDiv (b - now) 1000 - 1) < b - now <= 1000 * ceilDiv (b - now) 1000)
  /\ (b <= now -> resetTime e < now ->
      checkRateLimit config m now request =
      (allowedResult,
       <[getClientIdentifier request :=
           freshEntry (getRateLimitConfig request) now]> m))
  /\ (forall (tier : RateLimitTier) (t : Z),
      tier = RATE_LIMIT_CONFIG.api \/ tier = RATE_LIMIT_CONFIG.search ->
      b = t + blockDuration tier -> resetTime e <= t + windowMs tier ->
      b <= now ->
      checkRateLimit config m now request =
      (allowedResult,
       <[getClientIdentifier request :=
           freshEntry (getRateLimitConfig request) now]> m)).
Proof.
  intros Hen Hnow Hm Hb.
  assert (Hfresh : b <= now -> resetTime e < now ->
    checkRateLimit config m now request =
    (allowedResult,
     <[getClientIdentifier request :=
         freshEntry (getRateLimitConfig request) now]> m)).
  { intros Hexp Hwin. apply check_fresh; auto; rewrite Hm.
    - unfold blockedAt. rewrite Hb.
      destruct (Z.ltb_spec now b); [lia|]. now rewrite andb_false_r.
    - simpl. now apply Z.ltb_lt. }
  split; [|split].
  - intros Hlt. split.
    + apply check_blocked with (e := e); auto. lia.
    + apply ceilDiv_bounds. lia.
  - exact Hfresh.
  - intros tier t Htier Hbt HR Hexp. apply Hfresh; [exact Hexp|].
    destruct Htier as [-> | ->]; cbn [RATE_LIMIT_CONFIG.api RATE_LIMIT_CONFIG.search
      blockDuration windowMs] in *; lia.
Qed.

Lemma blocked_until_then_fresh_after_window_witness :
  checkRateLimit sampleConfig blockedGeneralMap 200000 homeRequest =
  ({| allowed := false; retryAfter := None; blockRemaining := Some 101 |},
   blockedGeneralMap).
Proof.
  destruct (blocked_until_then_fresh_after_window sampleConfig blockedGeneralMap
              homeRequest 200000
              {| count := 100; resetTime := 900000; lastRequest := 99;
                 blockedUntil := Some 300100 |} 300100)
    as [H _].
  - reflexivity.
  - lia.
  - vm_compute. reflexivity.
  - reflexivity.
  - apply H. lia.
Defined.

(** C3 as the specification words it fails in the general tier. A client
    that has made 101 checks of the home page within 101 milliseconds is
    blocked until 300100; its check at 300100, when the block is over, is
    not treated as fresh: it is refused again and the block is moved to
    600100. *)
Lemma expired_block_is_not_fresh_in_general_tier :
  getRateLimitConfig homeRequest = RATE_LIMIT_CONFIG.general
  /\ blockedGeneralMap !! getClientIdentifier homeRequest =
     Some {| count := 100; resetTime := 900000; lastRequest := 99;
             blockedUntil := Some 300100 |}
  /\ allowed (fst (checkRateLimit sampleConfig blockedGeneralMap 300100 homeRequest))
     = false
  /\ snd (checkRateLimit sampleConfig blockedGeneralMap 300100 homeRequest)
       !! getClientIdentifier homeRequest =
     Some {| count := 100; resetTime := 900000; lastRequest := 99;
             blockedUntil := Some 600100 |}
  /\ checkRateLimit sampleConfig blockedGeneralMap 300100 homeRequest <>
     (allowedResult,
      <[getClientIdentifier homeRequest :=
          freshEntry (getRateLimitConfig homeRequest) 300100]> blockedGeneralMap).
Proof.
  split; [reflexivity|]. split; [vm_compute; reflexivity|].
  split; [vm_compute; reflexivity|]. split; [vm_compute; reflexivity|].
  intros H. apply (f_equal (fun p => allowed (fst p))) in H.
  vm_compute in H. discriminate.
Qed.

(** C9. Rate limiting being on, let the block of a client be over
    ([now >= blockedUntil]) while its window is not ([now <= resetTime])
    and its count is at the limit. The check is refused again and
    [blockedUntil] becomes [now + blockDuration]; indeed every check of
    the client is refused as long as the window lasts. The general tier,
    whose block (5 minutes) is shorter than its window (15 minutes), gets
    into that state: 101 checks within 101 milliseconds do it. *)
Theorem expired_block_in_window_refused_again (config : AppConfig)
    (m : gmap (list N) RateLimitEntry) (request : Request) (now : Z)
    (e : RateLimitEntry) (b : Z) :
  enableRateLimiting config = true ->
  m !! getClientIdentifier request = Some e ->
  blockedUntil e = Some b ->
  b <= now -> now <= resetTime e ->
  maxRequests (getRateLimitConfig request) <= count e ->
  checkRateLimit config m now request =
  ({| allowed := false;
      retryAfter := Some (blockDuration (getRateLimitConfig request) / 1000);
      blockRemaining := None |},
   <[getClientIdentifier request :=
       blockEntry e (now + blockDuration (getRateLimitConfig request))]> m)
  /\ (forall events : list (Z * Request),
      Forall (fun ev => getClientIdentifier (snd ev) = getClientIdentifier request
                        /\ fst ev <= resetTime e
                        /\ maxRequests (getRateLimitConfig (snd ev)) <= count e)
             events ->
      Forall (fun res => allowed res = false)
             (fst (runChecks config m events)))
  /\ (blockDuration RATE_LIMIT_CONFIG.general < windowMs RATE_LIMIT_CONFIG.general
      /\ getRateLimitConfig homeRequest = RATE_LIMIT_CONFIG.general
      /\ blockedGeneralMap !! getClientIdentifier homeRequest =
         Some {| count := 100; resetTime := 900000; lastRequest := 99;
                 blockedUntil := Some 300100 |}).
Proof.
  intros Hen Hm Hb Hexp Hwin Hcnt.
  split; [|split].
  - rewrite <- retryAfter_seconds. apply check_limit; auto.
    unfold blockedAt. rewrite Hb.
    destruct (Z.ltb_spec now b); [lia|]. now rewrite andb_false_r.
  - intros events Hall.
    apply run_refused_in_window
      with (k := getClientIdentifier request) (c := count e) (R := resetTime e) (e := e);
      auto.
  - split; [reflexivity|]. split; [reflexivity|]. vm_compute. reflexivity.
Qed.

Lemma expired_block_in_window_refused_again_witness :
  checkRateLimit sampleConfig blockedGeneralMap 300100 homeRequest =
  ({| allowed := false; retryAfter := Some 300; blockRemaining := None |},
   <[getClientIdentifier homeRequest :=
       {| count := 100; resetTime := 900000; lastRequest := 99;
          blockedUntil := Some 600100 |}]> blockedGeneralMap).
Proof.
  destruct (expired_block_in_window_refused_again sampleConfig blockedGeneralMap
              homeRequest 300100
              {| count := 100; resetTime := 900000; lastRequest := 99;
                 blockedUntil := Some 300100 |} 300100)
    as [H _].
  - reflexivity.
  - vm_compute. reflexivity.
  - reflexivity.
  - lia.
  - simpl. lia.
  - simpl. lia.
  - exact H.
Defined.

(** ** The matcher *)

(** C1, as the code has it. A path that starts with /api/weather is not
    matched by the matcher of the middleware, whose lookahead excludes
    every path that starts with /api: the framework does not run the
    middleware on it and the rate-limit map is left as it is. The api tier
    that [getRateLimitConfig] selects for such a path, before it looks for
    the search substrings, is therefore never applied. *)
Theorem weather_api_path_excluded_by_matcher (config : AppConfig)
    (m : gmap (list N) RateLimitEntry) (now : Z)
    (verb : jsstring) (rest : jsstring) (city : option jsstring)
    (hdrs : jsstring -> option jsstring) :
  matcherMatches (js "/api/weather" ++ rest) = false
  /\ dispatch config m now
       {| method := verb; pathname := js "/api/weather" ++ rest;
          cityParam := city; headers := hdrs |} = (None, m)
  /\ getRateLimitConfig
       {| method := verb; pathname := js "/api/weather" ++ rest;
          cityParam := city; headers := hdrs |} = RATE_LIMIT_CONFIG.api
  /\ matcherMatches (js "/") = true
  /\ matcherMatches (js "/search") = true.
Proof.
  split; [reflexivity|]. split; [reflexivity|].
  split; [|split; reflexivity].
  unfold getRateLimitConfig. cbn [pathname].
  replace (startsWith (js "/api/weather" ++ rest) (js "/api/weather")) with true;
    [reflexivity|].
  symmetry. apply startsWith_prefix. now exists rest.
Qed.

(** ** The cache *)

Section CacheProperties.

Context {WeatherData : Type}.

Local Abbreviation cache_t := (@Cache WeatherData).
Local Abbreviation entry_t := (jsstring * @CacheEntry WeatherData)%type.

Lemma cacheGet_cacheSet (k : jsstring) (e : CacheEntry) (c : cache_t) :
  cacheGet k (cacheSet k e c) = Some e.
Proof.
  induction c as [|[k' e'] c IH]; simpl.
  - now rewrite strEq_refl.
  - destruct (strEq k k') eqn:E; simpl.
    + now rewrite strEq_refl.
    + now rewrite E.
Qed.

Lemma cacheSet_length (k : jsstring) (e : CacheEntry) (c : cache_t) :
  (length (cacheSet k e c) <= S (length c))%nat.
Proof.
  induction c as [|[k' e'] c IH]; simpl; [lia|].
  destruct (strEq k k'); simpl; lia.
Qed.

Lemma cacheSet_keys (k k0 : jsstring) (e : CacheEntry) (c : cache_t) :
  In k0 (map fst (cacheSet k e c)) <-> k0 = k \/ In k0 (map fst c).
Proof.
  induction c as [|[k' e'] c IH]; simpl.
  - intuition.
  - destruct (strEq k k') eqn:E; simpl.
    + apply strEq_true in E. subst k'. intuition.
    + rewrite IH. intuition.
Qed.

Lemma cacheSet_NoDup (k : jsstring) (e : CacheEntry) (c : cache_t) :
  List.NoDup (map fst c) -> List.NoDup (map fst (cacheSet k e c)).
Proof.
  induction c as [|[k' e'] c IH]; simpl; intros H.
  - apply List.NoDup_cons; [intros [] | constructor].
  - apply List.NoDup_cons_iff in H as [Hk' Hc].
    destruct (strEq k k') eqn:E; simpl.
    + apply strEq_true in E. subst k'. now apply List.NoDup_cons.
    + apply strEq_false in E. apply List.NoDup_cons_iff. split; [|auto].
      rewrite cacheSet_keys. intros [-> | Hin]; [congruence | contradiction].
Qed.

Lemma cacheDelete_In (k : jsstring) (x : entry_t) (c : cache_t) :
  In x (cacheDelete k c) <-> In x c /\ fst x <> k.
Proof.
  unfold cacheDelete. rewrite filter_In, negb_true_iff, strEq_false.
  intuition.
Qed.

Lemma cacheDelete_absent (k : jsstring) (c : cache_t) :
  ~ In k (map fst c) -> cacheDelete k c = c.
Proof.
  induction c as [|[k' e'] c IH]; simpl; intros H; [reflexivity|].
  destruct (strEq k k') eqn:E; simpl.
  - apply strEq_true in E. subst k'. tauto.
  - f_equal. apply IH. tauto.
Qed.

Lemma filter_keys_NoDup (f : entry_t -> bool) (c : cache_t) :
  List.NoDup (map fst c) -> List.NoDup (map fst (List.filter f c)).
Proof.
  induction c as [|x c IH]; simpl; intros H; [constructor|].
  apply List.NoDup_cons_iff in H as [Hx Hc].
  destruct (f x); simpl; [|auto].
  apply List.NoDup_cons_iff. split; [|auto].
  intros Hin. apply Hx. apply in_map_iff in Hin as (y & Hy & Hin).
  apply filter_In in Hin as [Hin _]. apply in_map_iff. eauto.
Qed.

Lemma cacheDelete_Permutation (k : jsstring) (e : CacheEntry) (c : cache_t) :
  List.NoDup (map fst c) -> In (k, e) c ->
  Permutation c ((k, e) :: cacheDelete k c).
Proof.
  induction c as [|[k' e'] c IH]; simpl; intros Hnd Hin; [contradiction|].
  apply List.NoDup_cons_iff in Hnd as [Hk' Hc].
  destruct Hin as [Heq | Hin].
  - injection Heq as -> ->. rewrite strEq_refl. simpl.
    fold (cacheDelete k c). now rewrite cacheDelete_absent.
  - assert (Hne : k <> k').
    { intros ->. apply Hk'. apply in_map_iff. exists (k', e). auto. }
    apply strEq_false in Hne. rewrite Hne. simpl. fold (cacheDelete k c).
    rewrite perm_swap. constructor. now apply IH.
Qed.

Lemma insertEntry_Permutation (x : entry_t) (l : cache_t) :
  Permutation (insertEntry x l) (x :: l).
Proof.
  induction l as [|y l IH]; simpl; [reflexivity|].
  destruct (_ <=? _); [reflexivity|].
  rewrite perm_swap. now constructor.
Qed.

Lemma sortEntries_Permutation (l : cache_t) : Permutation (sortEntries l) l.
Proof.
  induction l as [|x l IH]; simpl; [reflexivity|].
  rewrite insertEntry_Permutation. now constructor.
Qed.

Lemma insertEntry_sorted (x : entry_t) (l : cache_t) :
  StronglySorted notYounger l -> StronglySorted notYounger (insertEntry x l).
Proof.
  induction 1 as [|y l Hs IH Hy]; simpl.
  - constructor; constructor.
  - destruct (Z.leb_spec (timestamp (snd x)) (timestamp (snd y))).
    + constructor; [now constructor|].
      constructor; [exact H|].
      eapply List.Forall_impl; [|exact Hy].
      unfold notYounger. intros z Hz. lia.
    + constructor; [exact IH|].
      apply (Permutation_Forall (Permutation_sym (insertEntry_Permutation x l))).
      constructor; [unfold notYounger; lia | exact Hy].
Qed.

Lemma sortEntries_sorted (l : cache_t) : StronglySorted notYounger (sortEntries l).
Proof.
  induction l as [|x l IH]; simpl; [constructor|].
  now apply insertEntry_sorted.
Qed.

Lemma sorted_app_ordered (l1 l2 : cache_t) :
  StronglySorted notYounger (l1 ++ l2) ->
  forall x y, In x l1 -> In y l2 -> notYounger x y.
Proof.
  induction l1 as [|z l1 IH]; simpl; intros Hs x y Hx Hy; [contradiction|].
  apply StronglySorted_inv in Hs as [Hs Hz].
  destruct Hx as [<- | Hx].
  - rewrite List.Forall_forall in Hz. apply Hz. apply in_or_app. now right.
  - now apply IH.
Qed.

Lemma firstn_In {A : Type} (n : nat) (l : list A) (x : A) :
  In x (firstn n l) -> In x l.
Proof.
  intros H. rewrite <- (firstn_skipn n l). apply in_or_app. now left.
Qed.

(** The loop does not run past the end of the array, so it does not throw. *)
Lemma evictLoop_completes (n : nat) :
  forall (entries c : cache_t),
    (n <= length entries)%nat -> fst (evictLoop n entries c) = Normal tt.
Proof.
  induction n as [|n IH]; intros entries c Hlen; [reflexivity|].
  destruct entries as [|[k e] rest]; simpl in *; [lia|].
  apply IH. lia.
Qed.

(** The loop takes the first [n] entries of the array out of the map. *)
Lemma evictLoop_removes (n : nat) :
  forall (entries c : cache_t),
    (n <= length entries)%nat ->
    List.NoDup (map fst c) -> List.NoDup (map fst entries) ->
    (forall x, In x (firstn n entries) -> In x c) ->
    exists c1,
      evictLoop n entries c = (Normal tt, c1)
      /\ Permutation c (firstn n entries ++ c1)
      /\ List.NoDup (map fst c1).
Proof.
  induction n as [|n IH]; intros entries c Hlen Hc He Hin.
  - exists c. simpl. auto.
  - destruct entries as [|[k e] rest]; simpl in *; [lia|].
    apply List.NoDup_cons_iff in He as [Hk Hrest].
    destruct (IH rest (cacheDelete k c)) as (c1 & Hrun & Hperm & Hnd).
    + lia.
    + now apply filter_keys_NoDup.
    + exact Hrest.
    + intros x Hx. apply cacheDelete_In. split; [auto|].
      intros Hfst. apply Hk. apply in_map_iff. exists x. split; [exact Hfst|].
      eapply firstn_In; eauto.
    + exists c1. split; [exact Hrun|]. split; [|exact Hnd].
      rewrite (cacheDelete_Permutation k e c Hc) by auto.
      now constructor.
Qed.

Lemma toRemove_within_size (config : AppConfig) (c : cache_t) :
  cacheMaxSize config <= cacheSize c ->
  (Z.to_nat (toRemoveOf config) <= length (sortEntries c))%nat.
Proof.
  intros H. rewrite (Permutation_length (sortEntries_Permutation c)).
  unfold toRemoveOf, cacheSize in *.
  pose proof (ceilDiv_bounds (cacheMaxSize config) 10 ltac:(lia)). lia.
Qed.

(** With the cache on, [setCachedData] returns and the key is written last. *)
Lemma setCachedData_returns (config : AppConfig) (cache : cache_t) (now : Z)
    (k : jsstring) (v : WeatherData) :
  enableCache config = true ->
  exists c1,
    setCachedData config cache now k v =
    (Normal tt, cacheSet k {| data := v; timestamp := now |} c1).
Proof.
  intros Hen. unfold setCachedData. rewrite Hen. cbn [negb].
  destruct (Z.leb_spec (cacheMaxSize config) (cacheSize cache)) as [Hfull | Hroom].
  - pose proof (evictLoop_completes (Z.to_nat (toRemoveOf config))
                  (sortEntries cache) cache (toRemove_within_size config cache Hfull))
      as Hok.
    destruct (evictLoop _ _ _) as [r c1]. simpl in Hok. subst r.
    now exists c1.
  - now exists cache.
Qed.

(** C8. With the cache on, [setCachedData(k, v)] at time [now1] followed by
    [getCachedData(k)] at a time [now2] at which no more than the time to
    live has passed returns [v], whatever the cache held before and
    whatever its size limit. *)
Theorem cache_round_trip (config : AppConfig) (cache : cache_t)
    (now1 now2 : Z) (k : jsstring) (v : WeatherData) :
  enableCache config = true ->
  now2 - now1 <= cacheTtlSeconds config * 1000 ->
  exists cache1,
    setCachedData config cache now1 k v = (Normal tt, cache1)
    /\ getCachedData config cache1 now2 k = (Some v, cache1).
Proof.
  intros Hen Httl.
  destruct (setCachedData_returns config cache now1 k v Hen) as (c1 & Hset).
  eexists. split; [exact Hset|].
  unfold getCachedData. rewrite Hen. cbn [negb].
  rewrite cacheGet_cacheSet. cbn [timestamp data].
  destruct (Z.ltb_spec (cacheTtlSeconds config * 1000) (now2 - now1)); [lia|].
  reflexivity.
Qed.

(** C4 (amended). For every configured maximum size of at least 1 and
    every cache within it (its keys distinct, as those of a [Map] are),
    [setCachedData] returns and keeps the cache within the maximum size
    and its keys distinct. When the cache is on and holds exactly the
    maximum number of entries, the call takes out exactly
    [ceil(maxSize / 10)] entries, none of them younger than any entry that
    stays, and then writes the new entry. *)
Theorem setCachedData_bounded_and_evicts_oldest (config : AppConfig)
    (cache : cache_t) (now : Z) (k : jsstring) (v : WeatherData) :
  1 <= cacheMaxSize config ->
  List.NoDup (map fst cache) ->
  cacheSize cache <= cacheMaxSize config ->
  exists cache',
    setCachedData config cache now k v = (Normal tt, cache')
    /\ List.NoDup (map fst cache')
    /\ cacheSize cache' <= cacheMaxSize config
    /\ (enableCache config = true ->
        cacheSize cache = cacheMaxSize config ->
        exists evicted survivors,
          Permutation cache (evicted ++ survivors)
          /\ Z.of_nat (length evicted) = ceilDiv (cacheMaxSize config) 10
          /\ 10 * (Z.of_nat (length evicted) - 1) < cacheMaxSize config
               <= 10 * Z.of_nat (length evicted)
          /\ (forall x y, In x evicted -> In y survivors -> notYounger x y)
          /\ cache' = cacheSet k {| data := v; timestamp := now |} survivors).
Proof.
  intros Hmax Hnd Hsize.
  pose proof (ceilDiv_bounds (cacheMaxSize config) 10 ltac:(lia)) as Hceil.
  unfold setCachedData.
  destruct (enableCache config) eqn:Hen; cbn [negb].
  2:{ exists cache. split; [reflexivity|]. split; [exact Hnd|].
      split; [exact Hsize|]. discriminate. }
  destruct (Z.leb_spec (cacheMaxSize config) (cacheSize cache)) as [Hfull | Hroom].
  - set (n := Z.to_nat (toRemoveOf config)).
    assert (Hn : (n <= length (sortEntries cache))%nat)
      by now apply toRemove_within_size.
    destruct (evictLoop_removes n (sortEntries cache) cache Hn Hnd)
      as (c1 & Hrun & Hperm & Hnd1).
    { eapply Permutation_NoDup; [|exact Hnd].
      apply Permutation_map. symmetry. apply sortEntries_Permutation. }
    { intros x Hx. apply (Permutation_in x (sortEntries_Permutation cache)).
      eapply firstn_In; eauto. }
    rewrite Hrun.
    assert (Hlen : length (firstn n (sortEntries cache)) = n)
      by (apply firstn_length_le; exact Hn).
    assert (Hnz : Z.of_nat n = ceilDiv (cacheMaxSize config) 10)
      by (unfold n, toRemoveOf; lia).
    assert (Hc1 : Z.of_nat (length c1) = cacheSize cache - Z.of_nat n).
    { apply Permutation_length in Hperm. rewrite length_app, Hlen in Hperm.
      unfold cacheSize. lia. }
    eexists. split; [reflexivity|]. split; [now apply cacheSet_NoDup|].
    split.
    { pose proof (cacheSet_length k {| data := v; timestamp := now |} c1).
      unfold cacheSize in *. lia. }
    intros _ _. exists (firstn n (sortEntries cache)), c1.
    split; [exact Hperm|]. rewrite Hlen.
    split; [exact Hnz|]. split; [lia|]. split; [|reflexivity].
    intros x y Hx Hy.
    assert (Hrest : Permutation c1 (skipn n (sortEntries cache))).
    { apply (Permutation_app_inv_l (firstn n (sortEntries cache))).
      rewrite <- Hperm, firstn_skipn. symmetry. apply sortEntries_Permutation. }
    apply (sorted_app_ordered (firstn n (sortEntries cache))
                              (skipn n (sortEntries cache))).
    + rewrite firstn_skipn. apply sortEntries_sorted.
    + exact Hx.
    + apply (Permutation_in y Hrest Hy).
  - eexists. split; [reflexivity|]. split; [now apply cacheSet_NoDup|].
    split.
    { pose proof (cacheSet_length k {| data := v; timestamp := now |} cache).
      unfold cacheSize in *. lia. }
    intros _ Heq. lia.
Qed.

End CacheProperties.

Lemma cache_round_trip_witness :
  exists cache1 : @Cache unit,
    setCachedData sampleConfig twoCities 1000 (js "weather:durban") tt
      = (Normal tt, cache1)
    /\ getCachedData sampleConfig cache1 301000 (js "weather:durban")
      = (Some tt, cache1).
Proof.
  apply (cache_round_trip sampleConfig twoCities 1000 301000
           (js "weather:durban") tt).
  - reflexivity.
  - simpl. lia.
Defined.

Lemma setCachedData_bounded_and_evicts_oldest_witness :
  exists cache' : @Cache unit,
    setCachedData smallCacheConfig twoCities 30 (js "weather:paarl") tt
      = (Normal tt, cache')
    /\ cacheSize cache' <= 2.
Proof.
  destruct (setCachedData_bounded_and_evicts_oldest smallCacheConfig twoCities 30
              (js "weather:paarl") tt)
    as (cache' & Hset & _ & Hsize & _).
  - simpl. lia.
  - simpl. repeat (apply List.NoDup_cons; [simpl; intuition discriminate|]).
    apply List.NoDup_nil.
  - unfold cacheSize. simpl. lia.
  - exists cache'. split; [exact Hset | exact Hsize].
Defined.

(** C4 as the specification words it fails for a maximum size of 0, which
    [CACHE_MAX_SIZE=0] configures: the empty cache is within the limit,
    nothing is evicted, and after the call the cache holds one entry. *)
Lemma cache_outgrows_zero_max_size :
  cacheSize (@nil (jsstring * @CacheEntry unit)) <= cacheMaxSize zeroSizeConfig
  /\ setCachedData zeroSizeConfig [] 5 (js "weather:durban") tt =
     (Normal tt, [(js "weather:durban", {| data := tt; timestamp := 5 |})])
  /\ ~ cacheSize (snd (setCachedData zeroSizeConfig [] 5 (js "weather:durban") tt))
       <= cacheMaxSize zeroSizeConfig.
Proof.
  split; [vm_compute; discriminate|]. split; [reflexivity|].
  vm_compute. intros H. apply H. reflexivity.
Qed.

(** ** The upstream call *)

Section Upstream.

Context {WeatherData : Type}.

(** C6. When the weather provider answers 401, [fetchWeatherData] throws
    an [ExternalApiError] whose status code is 502 and whose code is
    EXTERNAL_API_ERROR. The response of [GET] then has status 502 and that
    error as its body, and in no case has a [GET] whose upstream call is
    answered 401 the status 401. *)
Theorem upstream_401_surfaces_as_502 (config : AppConfig)
    (cache : @Cache WeatherData) (now1 now2 : Z) (request : Request)
    (city : jsstring) (body : option (@Json WeatherData)) :
  fetchWeatherData city (FetchResponse 401 body) =
    Throw (ThrownApi invalidApiKeyError)
  /\ statusCode invalidApiKeyError = 502
  /\ code invalidApiKeyError = Some (js "EXTERNAL_API_ERROR")
  /\ status (fst (GET config cache now1 now2 request (FetchResponse 401 body)))
     <> 401
  /\ (strEq (method request) (js "GET") = true ->
      validateCity (orDefault (cityParam request) []) = Normal tt ->
      fst (getCachedData config cache now1
             (js "weather:" ++ toLowerCase (orDefault (cityParam request) []))) = None ->
      fst (GET config cache now1 now2 request (FetchResponse 401 body)) =
        errorResponse invalidApiKeyError
      /\ status (fst (GET config cache now1 now2 request (FetchResponse 401 body)))
         = 502).
Proof.
  split; [reflexivity|]. split; [reflexivity|]. split; [reflexivity|].
  assert (Hfetch : forall c,
    @fetchWeatherData WeatherData c (FetchResponse 401 body) =
    Throw (ThrownApi invalidApiKeyError)) by reflexivity.
  split.
  - unfold GET. destruct (strEq (method request) (js "GET")); cbn [negb];
      [|simpl; lia].
    destruct (validateCity_outcomes (orDefault (cityParam request) [])) as [Hv | [msg Hv]];
      cbv zeta; rewrite Hv.
    + destruct (getCachedData _ _ _ _) as [[d|] c1]; [simpl; lia|].
      rewrite Hfetch. simpl. lia.
    + simpl. lia.
  - intros Hm Hv Hmiss. unfold GET. rewrite Hm. cbn [negb]. cbv zeta.
    rewrite Hv.
    destruct (getCachedData _ _ _ _) as [[d|] c1]; [discriminate|].
    rewrite Hfetch. split; reflexivity.
Qed.

End Upstream.

Lemma upstream_401_surfaces_as_502_witness :
  status (fst (@GET unit sampleConfig [] 0 0
                 (requestOf (js "/api/weather") (js "10.0.0.1") (Some (js "Durban")))
                 (FetchResponse 401 None)))
  = 502.
Proof.
  destruct (@upstream_401_surfaces_as_502 unit sampleConfig [] 0 0
              (requestOf (js "/api/weather") (js "10.0.0.1") (Some (js "Durban")))
              (js "Durban") None)
    as (_ & _ & _ & _ & H).
  apply H; reflexivity.
Defined.

(** * Further properties *)

(** ** The rate limiter *)

(** The four ways a check can go when rate limiting is on. *)
Lemma check_step_cases (config : AppConfig) (m : gmap (list N) RateLimitEntry)
    (now : Z) (request : Request) :
  enableRateLimiting config = true ->
  (exists e b,
      m !! getClientIdentifier request = Some e /\ blockedUntil e = Some b
      /\ b <> 0 /\ now < b
      /\ checkRateLimit config m now request =
         ({| allowed := false; retryAfter := None;
             blockRemaining := Some (ceilDiv (b - now) 1000) |}, m))
  \/ (blockedAt (m !! getClientIdentifier request) now = None
      /\ windowExpired (m !! getClientIdentifier request) now = true
      /\ checkRateLimit config m now request =
         (allowedResult,
          <[getClientIdentifier request :=
              freshEntry (getRateLimitConfig request) now]> m))
  \/ (exists e,
      m !! getClientIdentifier request = Some e
      /\ blockedAt (Some e) now = None /\ now <= resetTime e
      /\ maxRequests (getRateLimitConfig request) <= count e
      /\ checkRateLimit config m now request =
         ({| allowed := false;
             retryAfter :=
               Some (ceilDiv (blockDuration (getRateLimitConfig request)) 1000);
             blockRemaining := None |},
          <[getClientIdentifier request :=
              blockEntry e (now + blockDuration (getRateLimitConfig request))]> m))
  \/ (exists e,
      m !! getClientIdentifier request = Some e
      /\ blockedAt (Some e) now = None /\ now <= resetTime e
      /\ count e < maxRequests (getRateLimitConfig request)
      /\ checkRateLimit config m now request =
         (allowedResult,
          <[getClientIdentifier request :=
              {| count := count e + 1; resetTime := resetTime e;
                 lastRequest := now; blockedUntil := blockedUntil e |}]> m)).
Proof.
  intros Hen.
  destruct (blockedAt (m !! getClientIdentifier request) now) as [b|] eqn:Hb.
  - left. unfold blockedAt in Hb.
    destruct (m !! getClientIdentifier request) as [e|] eqn:Hm; [|discriminate].
    destruct (blockedUntil e) as [b'|] eqn:Hbu; [|discriminate].
    destruct (Z.eqb_spec b' 0); [discriminate|].
    destruct (Z.ltb_spec now b'); [|discriminate].
    simpl in Hb. injection Hb as <-.
    exists e, b'. repeat (split; [first [assumption | reflexivity]|]).
    now apply check_blocked with (e := e).
  - destruct (windowExpired (m !! getClientIdentifier request) now) eqn:Hw.
    + right; left. split; [reflexivity|]. split; [reflexivity|].
      now apply check_fresh.
    + destruct (m !! getClientIdentifier request) as [e|] eqn:Hm; [|discriminate].
      simpl in Hw. apply Z.ltb_ge in Hw.
      destruct (Z.le_gt_cases (maxRequests (getRateLimitConfig request)) (count e)).
      * right; right; left. exists e. repeat (split; [first [assumption | reflexivity]|]).
        now apply check_limit.
      * right; right; right. exists e. repeat (split; [first [assumption | reflexivity]|]).
        now apply check_counted.
Qed.

(** What a check answers and what it writes for its client depends on the
    entry of that client only. *)
Lemma check_local (config : AppConfig) (m m' : gmap (list N) RateLimitEntry)
    (now : Z) (request : Request) :
  m !! getClientIdentifier request = m' !! getClientIdentifier request ->
  fst (checkRateLimit config m now request) =
  fst (checkRateLimit config m' now request)
  /\ snd (checkRateLimit config m now request) !! getClientIdentifier request =
     snd (checkRateLimit config m' now request) !! getClientIdentifier request.
Proof.
  intros H. unfold checkRateLimit. rewrite <- H.
  destruct (negb _); [auto|].
  destruct (blockedAt _ _); [auto|].
  destruct (m !! getClientIdentifier request) as [e|]; simpl.
  - destruct (_ <? _); [|destruct (_ <=? _)]; simpl;
      rewrite !lookup_insert_eq; auto.
  - rewrite !lookup_insert_eq; auto.
Qed.

(** X1. The checks of other clients do not interfere: in any run, what the
    checks of one client are answered, and the entry the run leaves for
    that client, are what a run of that client's checks alone gives. *)
Theorem other_clients_do_not_interfere (config : AppConfig) (k : jsstring)
    (m : gmap (list N) RateLimitEntry) (events : list (Z * Request)) :
  resultsFor k events (fst (runChecks config m events)) =
  fst (runChecks config m (List.filter (fromClient k) events))
  /\ snd (runChecks config m events) !! k =
     snd (runChecks config m (List.filter (fromClient k) events)) !! k.
Proof.
  enough (Hgen : forall (events : list (Z * Request))
                        (m m' : gmap (list N) RateLimitEntry),
             m !! k = m' !! k ->
             resultsFor k events (fst (runChecks config m events)) =
             fst (runChecks config m' (List.filter (fromClient k) events))
             /\ snd (runChecks config m events) !! k =
                snd (runChecks config m' (List.filter (fromClient k) events)) !! k)
    by (apply Hgen; reflexivity).
  clear m events.
  induction events as [|[t r] events IH]; intros m m' Hm; [simpl; auto|].
  cbn [runChecks List.filter].
  assert (Hfc : fromClient k (t, r) = strEq (getClientIdentifier r) k)
    by reflexivity.
  rewrite Hfc.
  destruct (strEq (getClientIdentifier r) k) eqn:Ek.
  - apply strEq_true in Ek. subst k.
    destruct (check_local config m m' t r Hm) as [Hres Hent].
    cbn [runChecks].
    destruct (checkRateLimit config m t r) as [res m1].
    destruct (checkRateLimit config m' t r) as [res' m1'].
    simpl in Hres, Hent. subst res'.
    specialize (IH m1 m1' Hent).
    destruct (runChecks config m1 events) as [results m2].
    destruct (runChecks config m1' _) as [results' m2'].
    simpl in *. destruct IH as [IH1 IH2].
    unfold resultsFor. cbn [combine List.filter fst]. rewrite Hfc.
    cbn [map snd]. split; [|exact IH2].
    f_equal. exact IH1.
  - apply strEq_false in Ek.
    assert (Hm1 : snd (checkRateLimit config m t r) !! k = m' !! k).
    { rewrite check_other_client; auto. }
    destruct (checkRateLimit config m t r) as [res m1]. simpl in Hm1.
    specialize (IH m1 m' Hm1).
    destruct (runChecks config m1 events) as [results m2].
    simpl in *. destruct IH as [IH1 IH2].
    unfold resultsFor. cbn [combine List.filter fst]. rewrite Hfc.
    split; [exact IH1 | exact IH2].
Qed.

(** X2. With rate limiting switched off every check of a run is allowed
    and the map is left as it was, and the middleware answers no request
    with 429. *)
Theorem disabled_limiter_allows_everything (config : AppConfig)
    (m : gmap (list N) RateLimitEntry) (events : list (Z * Request))
    (now : Z) (request : Request) :
  enableRateLimiting config = false ->
  runChecks config m events = (map (fun _ => allowedResult) events, m)
  /\ snd (middleware config m now request) = m
  /\ (forall retryAfterHeader,
      fst (middleware config m now request) <> Reject 429 retryAfterHeader).
Proof.
  intros Hoff. split; [|split].
  - induction events as [|[t r] events IH]; [reflexivity|].
    cbn [runChecks map]. unfold checkRateLimit at 1. rewrite Hoff. cbn [negb].
    rewrite IH. reflexivity.
  - unfold middleware. rewrite Hoff.
    destruct (negb (validateTrustedHost _ _)); [reflexivity|].
    destruct (negb (validateRequestHeaders _ _)); reflexivity.
  - intros ra. unfold middleware. rewrite Hoff.
    destruct (negb (validateTrustedHost _ _)); [discriminate|].
    destruct (negb (validateRequestHeaders _ _)); discriminate.
Qed.

Lemma disabled_limiter_allows_everything_witness :
  runChecks
    {| trustedHosts := []; cacheTtlSeconds := 300; cacheMaxSize := 100;
       nodeEnv := js "production"; enableCache := true;
       enableRateLimiting := false |}
    ∅ (burst homeRequest 0 3)
  = ([allowedResult; allowedResult; allowedResult], ∅).
Proof.
  destruct (disabled_limiter_allows_everything
              {| trustedHosts := []; cacheTtlSeconds := 300; cacheMaxSize := 100;
                 nodeEnv := js "production"; enableCache := true;
                 enableRateLimiting := false |}
              ∅ (burst homeRequest 0 3) 0 homeRequest)
    as [H _].
  - reflexivity.
  - exact H.
Defined.

(** X3. While a client is blocked, the seconds it is told to wait never go
    up: of two checks before [blockedUntil], both are refused and change
    nothing, the later one reports no more remaining seconds than the
    earlier one, and at least one second. *)
Theorem block_remaining_never_increases (config : AppConfig)
    (m : gmap (list N) RateLimitEntry) (request : Request) (now1 now2 : Z)
    (e : RateLimitEntry) (b : Z) :
  enableRateLimiting config = true ->
  0 <= now1 -> now1 <= now2 -> now2 < b ->
  m !! getClientIdentifier request = Some e ->
  blockedUntil e = Some b ->
  exists r1 r2,
    checkRateLimit config m now1 request =
      ({| allowed := false; retryAfter := None; blockRemaining := Some r1 |}, m)
    /\ checkRateLimit config m now2 request =
      ({| allowed := false; retryAfter := None; blockRemaining := Some r2 |}, m)
    /\ 1 <= r2 <= r1.
Proof.
  intros Hen H0 H12 H2b Hm Hb.
  exists (ceilDiv (b - now1) 1000), (ceilDiv (b - now2) 1000).
  split; [apply check_blocked with (e := e); auto; lia|].
  split; [apply check_blocked with (e := e); auto; lia|].
  pose proof (ceilDiv_bounds (b - now1) 1000 ltac:(lia)).
  pose proof (ceilDiv_bounds (b - now2) 1000 ltac:(lia)).
  lia.
Qed.

Lemma block_remaining_never_increases_witness :
  exists r1 r2,
    checkRateLimit sampleConfig blockedGeneralMap 1000 homeRequest =
      ({| allowed := false; retryAfter := None; blockRemaining := Some r1 |},
       blockedGeneralMap)
    /\ checkRateLimit sampleConfig blockedGeneralMap 250000 homeRequest =
      ({| allowed := false; retryAfter := None; blockRemaining := Some r2 |},
       blockedGeneralMap)
    /\ 1 <= r2 <= r1.
Proof.
  apply (block_remaining_never_increases sampleConfig blockedGeneralMap homeRequest
           1000 250000
           {| count := 100; resetTime := 900000; lastRequest := 99;
              blockedUntil := Some 300100 |} 300100).
  - reflexivity.
  - lia.
  - lia.
  - lia.
  - vm_compute. reflexivity.
  - reflexivity.
Defined.

(** A property of entries that every check keeps is kept by a run. *)
Lemma run_keeps (config : AppConfig) (P : RateLimitEntry -> Prop)
    (Q : Request -> Prop) :
  (forall m now request,
      Q request ->
      (forall k e, m !! k = Some e -> P e) ->
      forall k e, snd (checkRateLimit config m now request) !! k = Some e -> P e) ->
  forall (events : list (Z * Request)) (m : gmap (list N) RateLimitEntry),
    Forall (fun ev => Q (snd ev)) events ->
    (forall k e, m !! k = Some e -> P e) ->
    forall k e, snd (runChecks config m events) !! k = Some e -> P e.
Proof.
  intros Hstep. induction events as [|[t r] events IH]; intros m HQ Hm k e.
  - simpl. apply Hm.
  - apply List.Forall_cons_iff in HQ as [Hq HQ]. cbn [runChecks].
    pose proof (Hstep m t r Hq Hm) as Hm1.
    destruct (checkRateLimit config m t r) as [res m1]. simpl in Hm1.
    specialize (IH m1 HQ Hm1 k e).
    destruct (runChecks config m1 events) as [results m2]. exact IH.
Qed.

(** A check keeps a property of entries that holds of a fresh entry and
    is kept when an entry is blocked or counted up. *)
Lemma check_keeps (config : AppConfig) (P : RateLimitEntry -> Prop)
    (m : gmap (list N) RateLimitEntry) (now : Z) (request : Request) :
  P (freshEntry (getRateLimitConfig request) now) ->
  (forall e, P e -> maxRequests (getRateLimitConfig request) <= count e ->
             P (blockEntry e (now + blockDuration (getRateLimitConfig request)))) ->
  (forall e, P e -> count e < maxRequests (getRateLimitConfig request) ->
             P {| count := count e + 1; resetTime := resetTime e;
                  lastRequest := now; blockedUntil := blockedUntil e |}) ->
  (forall k e, m !! k = Some e -> P e) ->
  forall k e, snd (checkRateLimit config m now request) !! k = Some e -> P e.
Proof.
  intros Hfresh Hblock Hcount Hm k e.
  destruct (enableRateLimiting config) eqn:Hen.
  2:{ unfold checkRateLimit. rewrite Hen. simpl. apply Hm. }
  destruct (check_step_cases config m now request Hen)
    as [(e0 & b & _ & _ & _ & _ & ->)
       | [(_ & _ & ->)
         | [(e0 & Hm0 & _ & _ & Hc & ->) | (e0 & Hm0 & _ & _ & Hc & ->)]]];
    cbn [snd]; try apply Hm;
    (destruct (decide (getClientIdentifier request = k)) as [<- | Hne];
     [rewrite lookup_insert_eq; intros [= <-]
     | rewrite lookup_insert_ne by exact Hne; apply Hm]).
  - exact Hfresh.
  - apply Hblock; [eapply Hm; exact Hm0 | exact Hc].
  - apply Hcount; [eapply Hm; exact Hm0 | exact Hc].
Qed.

(** X4. After any run that starts from the empty map, every entry counts
    at least 1 and at most 100 requests; if all checks of the run were of
    one tier, no entry counts more than that tier's [maxRequests], and an
    entry that carries a block counts exactly that many. *)
Theorem counts_stay_within_limits (config : AppConfig)
    (events : list (Z * Request)) (k : jsstring) (e : RateLimitEntry) :
  snd (runChecks config ∅ events) !! k = Some e ->
  1 <= count e <= 100
  /\ (forall tier,
      Forall (fun ev => getRateLimitConfig (snd ev) = tier) events ->
      count e <= maxRequests tier
      /\ (blockedUntil e <> None -> count e = maxRequests tier)).
Proof.
  intros He. split.
  - revert k e He.
    apply (run_keeps config (fun e => 1 <= count e <= 100) (fun _ => True)).
    + intros m now request _. apply check_keeps.
      * simpl. lia.
      * intros e0 H0 _. exact H0.
      * intros e0 H0 Hc. cbn [count].
        destruct (getRateLimitConfig_cases request) as [E | [E | E]];
          rewrite E in Hc; simpl in Hc; lia.
    + apply List.Forall_forall. auto.
    + intros k e. rewrite lookup_empty. discriminate.
  - intros tier Htier.
    cut (1 <= count e <= maxRequests tier
         /\ (blockedUntil e <> None -> count e = maxRequests tier)); [tauto|].
    revert k e He.
    apply (run_keeps config
             (fun e => 1 <= count e <= maxRequests tier
                       /\ (blockedUntil e <> None -> count e = maxRequests tier))
             (fun r => getRateLimitConfig r = tier)).
    + intros m now request <-. apply check_keeps.
      * simpl. split; [|congruence].
        destruct (getRateLimitConfig_cases request) as [E | [E | E]];
          rewrite E; simpl; lia.
      * intros e0 [H0 _] Hc. simpl. split; [lia | intros _; lia].
      * intros e0 [H0 Hb0] Hc. simpl. split; [lia|].
        intros Hb. apply Hb0 in Hb. lia.
    + exact Htier.
    + intros k e. rewrite lookup_empty. discriminate.
Qed.

Lemma counts_stay_within_limits_witness :
  1 <= 100 <= 100
  /\ (forall tier,
      Forall (fun ev => getRateLimitConfig (snd ev) = tier)
             (burst homeRequest 0 101) ->
      100 <= maxRequests tier
      /\ (Some 300100 <> None -> 100 = maxRequests tier)).
Proof.
  apply (counts_stay_within_limits sampleConfig (burst homeRequest 0 101)
           (getClientIdentifier homeRequest)
           {| count := 100; resetTime := 900000; lastRequest := 99;
              blockedUntil := Some 300100 |}).
  vm_compute. reflexivity.
Defined.





(** ** The cache and the handler *)

Section RouteProperties.

Context {WeatherData : Type}.

Local Abbreviation cache_t := (@Cache WeatherData).

Lemma cacheGet_In (k : jsstring) (e : CacheEntry) (c : cache_t) :
  cacheGet k c = Some e -> In (k, e) c.
Proof.
  induction c as [|[k' e'] c IH]; simpl; [discriminate|].
  destruct (strEq k k') eqn:E.
  - apply strEq_true in E. intros [= ->]. left. congruence.
  - intros H. right. now apply IH.
Qed.

Lemma cacheGet_cacheDelete (k k' : jsstring) (c : cache_t) :
  cacheGet k' (cacheDelete k c) =
  if strEq k' k then None else cacheGet k' c.
Proof.
  induction c as [|[k0 e0] c IH]; simpl.
  - now destruct (strEq k' k).
  - fold (cacheDelete k c).
    destruct (strEq k k0) eqn:E0; simpl.
    + apply strEq_true in E0. subst k0. rewrite IH.
      destruct (strEq k' k); reflexivity.
    + rewrite IH. destruct (strEq k' k0) eqn:E1; [|reflexivity].
      apply strEq_true in E1. subst k0.
      destruct (strEq k' k) eqn:E2; [|reflexivity].
      apply strEq_true in E2. subst k'. rewrite strEq_refl in E0. discriminate.
Qed.

Lemma cacheGet_cacheSet_other (k k' : jsstring) (e : CacheEntry) (c : cache_t) :
  k' <> k -> cacheGet k' (cacheSet k e c) = cacheGet k' c.
Proof.
  intros Hne. apply strEq_false in Hne.
  induction c as [|[k0 e0] c IH]; simpl.
  - now rewrite Hne.
  - destruct (strEq k k0) eqn:E0; simpl.
    + apply strEq_true in E0. subst k0. now rewrite Hne.
    + rewrite IH. reflexivity.
Qed.

Lemma evictLoop_spares (k' : jsstring) (n : nat) :
  forall entries c : cache_t,
    cacheGet k' (snd (evictLoop n entries c)) = cacheGet k' c
    \/ cacheGet k' (snd (evictLoop n entries c)) = None.
Proof.
  induction n as [|n IH]; intros entries c; [now left|].
  destruct entries as [|[k0 e0] rest]; simpl; [now left|].
  destruct (IH rest (cacheDelete k0 c)) as [H | H]; [|now right].
  rewrite H, cacheGet_cacheDelete. destruct (strEq k' k0); auto.
Qed.


(** X7. An entry older than the time to live is dropped by the read that
    finds it: the read answers that nothing is cached, the key is gone
    afterwards, the cache holds one entry less and every other key is as
    it was. *)
Theorem expired_entry_is_dropped (config : AppConfig) (cache : cache_t)
    (now : Z) (k : jsstring) (e : CacheEntry) :
  enableCache config = true ->
  List.NoDup (map fst cache) ->
  cacheGet k cache = Some e ->
  cacheTtlSeconds config * 1000 < now - timestamp e ->
  exists cache',
    getCachedData config cache now k = (None, cache')
    /\ cacheGet k cache' = None
    /\ cacheSize cache' = cacheSize cache - 1
    /\ (forall k', k' <> k -> cacheGet k' cache' = cacheGet k' cache).
Proof.
  intros Hen Hnd Hget Hold.
  exists (cacheDelete k cache). unfold getCachedData.
  rewrite Hen, Hget. cbn [negb].
  destruct (Z.ltb_spec (cacheTtlSeconds config * 1000) (now - timestamp e)); [|lia].
  split; [reflexivity|]. split; [|split].
  - rewrite cacheGet_cacheDelete, strEq_refl. reflexivity.
  - pose proof (cacheDelete_Permutation k e cache Hnd (cacheGet_In k e cache Hget))
      as Hperm.
    apply Permutation_length in Hperm. simpl in Hperm.
    unfold cacheSize. lia.
  - intros k' Hne. rewrite cacheGet_cacheDelete.
    apply strEq_false in Hne. now rewrite Hne.
Qed.

(** X8. A write never alters the entry of another key: after
    [setCachedData] for a key, any other key has the entry it had or has
    been evicted, and while the cache is below its maximum size no other
    key is lost. *)
Theorem write_spares_other_keys (config : AppConfig) (cache : cache_t)
    (now : Z) (k k' : jsstring) (v : WeatherData) :
  k' <> k ->
  (cacheGet k' (snd (setCachedData config cache now k v)) = cacheGet k' cache
   \/ cacheGet k' (snd (setCachedData config cache now k v)) = None)
  /\ (cacheSize cache < cacheMaxSize config ->
      cacheGet k' (snd (setCachedData config cache now k v)) = cacheGet k' cache).
Proof.
  intros Hne. unfold setCachedData.
  destruct (negb (enableCache config)); [simpl; auto|].
  destruct (Z.leb_spec (cacheMaxSize config) (cacheSize cache)) as [Hfull | Hroom].
  - pose proof (evictLoop_spares k' (Z.to_nat (toRemoveOf config))
                  (sortEntries cache) cache) as Hev.
    destruct (evictLoop _ _ _) as [[[]|t] c1]; simpl in Hev |- *.
    + rewrite cacheGet_cacheSet_other by exact Hne. split; [exact Hev | lia].
    + split; [exact Hev | lia].
  - simpl. rewrite cacheGet_cacheSet_other by exact Hne. auto.
Qed.

(** X9. A response marked HIT is never stale and costs nothing: the data
    it carries is stored under the key of the city, was written no longer
    ago than the time to live, the cache is left as it was, and the answer
    does not depend on the upstream service. *)
Theorem hit_is_fresh_and_local (config : AppConfig) (cache : cache_t)
    (now1 now2 : Z) (request : Request) (upstream : FetchOutcome) :
  xCache (fst (GET config cache now1 now2 request upstream)) = Some (js "HIT") ->
  exists e,
    cacheGet (js "weather:" ++ toLowerCase (orDefault (cityParam request) []))
             cache = Some e
    /\ now1 - timestamp e <= cacheTtlSeconds config * 1000
    /\ GET config cache now1 now2 request upstream =
       (dataResponse config (data e) (js "HIT"), cache)
    /\ forall upstream' now2',
        GET config cache now1 now2' request upstream' =
        GET config cache now1 now2 request upstream.
Proof.
  unfold GET.
  destruct (negb (strEq (method request) (js "GET"))); [discriminate|].
  cbv zeta.
  destruct (validateCity (orDefault (cityParam request) [])) as [[]|t].
  2:{ destruct t as [err| |]; [destruct (strEq _ _)|..]; discriminate. }
  unfold getCachedData.
  destruct (negb (enableCache config)).
  { destruct (fetchWeatherData _ _); [|discriminate].
    destruct (setCachedData _ _ _ _ _) as [[|] ?]; discriminate. }
  destruct (cacheGet _ cache) as [e|].
  2:{ destruct (fetchWeatherData _ _); [|discriminate].
      destruct (setCachedData _ _ _ _ _) as [[|] ?]; discriminate. }
  destruct (Z.ltb_spec (cacheTtlSeconds config * 1000) (now1 - timestamp e)).
  { destruct (fetchWeatherData _ _); [|discriminate].
    destruct (setCachedData _ _ _ _ _) as [[|] ?]; discriminate. }
  intros _. exists e. auto.
Qed.

(** X10. A first request for a valid city that is not cached is answered
    from upstream and marked MISS; a second request for the same city,
    in whatever letter case, made within the time to live is answered
    with the same data, marked HIT, whatever the upstream service would
    say, and leaves the cache as it is. *)
Theorem second_request_is_served_from_cache (config : AppConfig)
    (cache : cache_t) (now1 now2 now3 now4 : Z) (request request' : Request)
    (status : Z) (d : WeatherData) (upstream' : FetchOutcome) :
  enableCache config = true ->
  strEq (method request) (js "GET") = true ->
  strEq (method request') (js "GET") = true ->
  validateCity (orDefault (cityParam request) []) = Normal tt ->
  validateCity (orDefault (cityParam request') []) = Normal tt ->
  toLowerCase (orDefault (cityParam request') []) =
    toLowerCase (orDefault (cityParam request) []) ->
  fst (getCachedData config cache now1
         (js "weather:" ++ toLowerCase (orDefault (cityParam request) []))) = None ->
  200 <= status <= 299 ->
  now3 - now2 <= cacheTtlSeconds config * 1000 ->
  exists cache1,
    GET config cache now1 now2 request (FetchResponse status (Some (JsonObject d)))
      = (dataResponse config d (js "MISS"), cache1)
    /\ GET config cache1 now3 now4 request' upstream'
      = (dataResponse config d (js "HIT"), cache1).
Proof.
  intros Hen Hm Hm' Hv Hv' Hkey Hmiss Hok Hage.
  set (key := js "weather:" ++ toLowerCase (orDefault (cityParam request) [])) in *.
  destruct (getCachedData config cache now1 key) as [r cache0] eqn:Hget.
  simpl in Hmiss. subst r.
  destruct (setCachedData_returns config cache0 now2 key d Hen) as (c1 & Hset).
  exists (cacheSet key {| data := d; timestamp := now2 |} c1). split.
  - unfold GET. rewrite Hm. cbn [negb]. cbv zeta. rewrite Hv. fold key.
    rewrite Hget.
    assert (Hfetch : fetchWeatherData (orDefault (cityParam request) [])
                       (FetchResponse status (Some (JsonObject d))) = Normal d).
    { unfold fetchWeatherData, fetchWeatherDataTry, responseOk.
      destruct (Z.leb_spec 200 status); [|lia].
      destruct (Z.leb_spec status 299); [|lia]. reflexivity. }
    rewrite Hfetch, Hset. reflexivity.
  - unfold GET. rewrite Hm'. cbn [negb]. cbv zeta. rewrite Hv', Hkey. fold key.
    unfold getCachedData. rewrite Hen. cbn [negb].
    rewrite cacheGet_cacheSet. cbn [timestamp data].
    destruct (Z.ltb_spec (cacheTtlSeconds config * 1000) (now3 - now2)); [lia|].
    reflexivity.
Qed.

End RouteProperties.

Lemma expired_entry_is_dropped_witness :
  exists cache' : @Cache unit,
    getCachedData sampleConfig twoCities 400000 (js "weather:durban")
      = (None, cache')
    /\ cacheGet (js "weather:durban") cache' = None
    /\ cacheSize cache' = cacheSize twoCities - 1
    /\ (forall k', k' <> js "weather:durban" ->
        cacheGet k' cache' = cacheGet k' twoCities).
Proof.
  apply (expired_entry_is_dropped sampleConfig twoCities 400000
           (js "weather:durban") {| data := tt; timestamp := 20 |}).
  - reflexivity.
  - simpl. repeat (apply List.NoDup_cons; [simpl; intuition discriminate|]).
    apply List.NoDup_nil.
  - reflexivity.
  - simpl. lia.
Defined.

Lemma write_spares_other_keys_witness :
  cacheGet (js "weather:durban")
    (snd (setCachedData sampleConfig twoCities 30 (js "weather:paarl") tt))
  = cacheGet (js "weather:durban") twoCities.
Proof.
  destruct (write_spares_other_keys sampleConfig twoCities 30
              (js "weather:paarl") (js "weather:durban") tt) as [_ H].
  - discriminate.
  - apply H. vm_compute. reflexivity.
Defined.

Lemma hit_is_fresh_and_local_witness :
  exists e : @CacheEntry unit,
    cacheGet (js "weather:" ++ toLowerCase (js "Durban")) twoCities = Some e
    /\ 1000 - timestamp e <= cacheTtlSeconds sampleConfig * 1000
    /\ GET sampleConfig twoCities 1000 2000
         (requestOf (js "/api/weather") (js "10.0.0.1") (Some (js "Durban")))
         (FetchRejected (js "TypeError") (js "fetch failed"))
       = (dataResponse sampleConfig (data e) (js "HIT"), twoCities)
    /\ forall upstream' now2',
        GET sampleConfig twoCities 1000 now2'
          (requestOf (js "/api/weather") (js "10.0.0.1") (Some (js "Durban")))
          upstream'
        = GET sampleConfig twoCities 1000 2000
            (requestOf (js "/api/weather") (js "10.0.0.1") (Some (js "Durban")))
            (FetchRejected (js "TypeError") (js "fetch failed")).
Proof.
  apply (hit_is_fresh_and_local sampleConfig twoCities 1000 2000
           (requestOf (js "/api/weather") (js "10.0.0.1") (Some (js "Durban")))
           (FetchRejected (js "TypeError") (js "fetch failed"))).
  reflexivity.
Defined.

Lemma second_request_is_served_from_cache_witness :
  exists cache1 : @Cache unit,
    GET sampleConfig [] 1000 2000
      (requestOf (js "/api/weather") (js "10.0.0.1") (Some (js "Durban")))
      (FetchResponse 200 (Some (JsonObject tt)))
      = (dataResponse sampleConfig tt (js "MISS"), cache1)
    /\ GET sampleConfig cache1 3000 4000
         (requestOf (js "/api/weather") (js "10.0.0.2") (Some (js "DURBAN")))
         (FetchRejected (js "TypeError") (js "fetch failed"))
      = (dataResponse sampleConfig tt (js "HIT"), cache1).
Proof.
  apply (second_request_is_served_from_cache sampleConfig [] 1000 2000 3000 4000
           (requestOf (js "/api/weather") (js "10.0.0.1") (Some (js "Durban")))
           (requestOf (js "/api/weather") (js "10.0.0.2") (Some (js "DURBAN")))
           200 tt (FetchRejected (js "TypeError") (js "fetch failed")));
    try reflexivity.
  - lia.
  - simpl. lia.
Defined.

Section HandlerProperties.

Context {WeatherData : Type}.




(** X12. A request that is refused for its method or its city costs
    nothing: the cache is left as it is, the status is 405 or 400, and the
    answer is the same whatever the clock shows and whatever the upstream
    service would say. *)
Theorem refused_request_touches_nothing (config : AppConfig)
    (cache : @Cache WeatherData) (now1 now2 : Z) (request : Request)
    (upstream : FetchOutcome) :
  strEq (method request) (js "GET") = false
  \/ throwsValidationError (validateCity (orDefault (cityParam request) [])) ->
  snd (GET config cache now1 now2 request upstream) = cache
  /\ (status (fst (GET config cache now1 now2 request upstream)) = 405
      \/ status (fst (GET config cache now1 now2 request upstream)) = 400)
  /\ forall now1' now2' upstream',
      GET config cache now1' now2' request upstream' =
      GET config cache now1 now2 request upstream.
Proof.
  unfold GET.
  destruct (strEq (method request) (js "GET")); cbn [negb].
  - intros [H | [msg Hv]]; [discriminate|]. cbv zeta. rewrite Hv.
    cbn [name ValidationError]. rewrite strEq_refl. simpl. auto.
  - intros _. simpl. auto.
Qed.


End HandlerProperties.


Lemma refused_request_touches_nothing_witness :
  snd (@GET unit sampleConfig twoCities 0 0
         (requestOf (js "/api/weather") (js "10.0.0.1") (Some (js "London<script>")))
         (FetchResponse 200 (Some (JsonObject tt))))
  = twoCities.
Proof.
  destruct (@refused_request_touches_nothing unit sampleConfig twoCities 0 0
              (requestOf (js "/api/weather") (js "10.0.0.1")
                         (Some (js "London<script>")))
              (FetchResponse 200 (Some (JsonObject tt))))
    as [H _].
  - right. eexists. reflexivity.
  - exact H.
Defined.


(** ** The client identifier *)

Lemma split_first (sep : N) (first rest : jsstring) :
  ~ In sep first ->
  split sep (first ++ sep :: rest) = first :: split sep rest.
Proof.
  induction first as [|c first IH]; simpl; intros Hno.
  - now rewrite N.eqb_refl.
  - destruct (N.eqb_spec c sep) as [-> | _]; [tauto|].
    rewrite IH by tauto. reflexivity.
Qed.



(** ** Trusted hosts and the configuration lists *)

(** X15. Trust extends to subdomains and grows with the list: every
    subdomain of a trusted host is trusted, and a host that is trusted
    stays trusted when hosts are added to the configured list. *)
Theorem trust_extends_to_subdomains (config config' : AppConfig)
    (host sub : jsstring) :
  isTrustedHost config host = true ->
  isTrustedHost config (sub ++ js "." ++ host) = true
  /\ ((forall th, In th (trustedHosts config) -> In th (trustedHosts config')) ->
      isTrustedHost config' host = true).
Proof.
  unfold isTrustedHost. intros H.
  apply existsb_exists in H as (th & Hin & Hth). split.
  - apply existsb_exists. exists th. split; [exact Hin|].
    apply orb_true_iff. right. apply endsWith_suffix.
    apply orb_true_iff in Hth as [Hth | Hth].
    + apply strEq_true in Hth. subst th. now exists sub.
    + apply endsWith_suffix in Hth as [front ->].
      exists (sub ++ js "." ++ front). now rewrite <- !app_assoc.
  - intros Hsub. apply existsb_exists. exists th. split; [auto | exact Hth].
Qed.

Lemma trust_extends_to_subdomains_witness :
  isTrustedHost sampleConfig (js "eu" ++ js "." ++ js "api.example.com") = true.
Proof.
  destruct (trust_extends_to_subdomains sampleConfig sampleConfig
              (js "api.example.com") (js "eu")) as [H _].
  - reflexivity.
  - exact H.
Defined.

Lemma trimStart_head (s t : jsstring) (c : N) :
  trimStart s = c :: t -> isWhiteSpace c = false.
Proof.
  induction s as [|d s IH]; simpl; [discriminate|].
  destruct (isWhiteSpace d) eqn:E; [exact IH|].
  intros [= <- _]. exact E.
Qed.

Lemma trimStart_app_last (l : jsstring) (c : N) :
  isWhiteSpace c = false -> trimStart (l ++ [c]) = trimStart l ++ [c].
Proof.
  intros Hc. induction l as [|d l IH]; simpl.
  - now rewrite Hc.
  - destruct (isWhiteSpace d); [exact IH | reflexivity].
Qed.

Lemma trimStart_idempotent (s : jsstring) :
  trimStart (trimStart s) = trimStart s.
Proof.
  induction s as [|d s IH]; simpl; [reflexivity|].
  destruct (isWhiteSpace d) eqn:E; [exact IH|].
  simpl. now rewrite E.
Qed.

Lemma trim_idempotent (s : jsstring) : trim (trim s) = trim s.
Proof.
  unfold trim. destruct (trimStart s) as [|c t] eqn:Ht; [reflexivity|].
  pose proof (trimStart_head s t c Ht) as Hc.
  assert (Hu : rev (trimStart (rev (c :: t))) = c :: rev (trimStart (rev t))).
  { simpl rev at 2. rewrite trimStart_app_last by exact Hc.
    rewrite rev_app_distr. reflexivity. }
  rewrite Hu. simpl trimStart. rewrite Hc.
  simpl rev at 2. rewrite rev_involutive.
  rewrite trimStart_app_last by exact Hc.
  rewrite trimStart_idempotent, rev_app_distr. reflexivity.
Qed.

Lemma trimStart_subset (s : jsstring) (c : N) : In c (trimStart s) -> In c s.
Proof.
  induction s as [|d s IH]; simpl; [tauto|].
  destruct (isWhiteSpace d); simpl; tauto.
Qed.

Lemma trim_subset (s : jsstring) (c : N) : In c (trim s) -> In c s.
Proof.
  unfold trim. intros H. apply in_rev in H. apply trimStart_subset in H.
  apply in_rev in H. now apply trimStart_subset.
Qed.

Lemma split_parts_hold_no_separator (sep : N) (s h : jsstring) :
  In h (split sep s) -> ~ In sep h.
Proof.
  revert h. induction s as [|c s IH]; simpl; intros h.
  - intros [<- | []]. tauto.
  - destruct (N.eqb_spec c sep) as [-> | Hne].
    + intros [<- | H]; [tauto | now apply IH].
    + destruct (split sep s) as [|h0 t].
      * intros [<- | []]. simpl. intuition.
      * intros [<- | H].
        -- simpl. intros [E | E]; [congruence|].
           apply (IH h0); [now left | exact E].
        -- apply IH. now right.
Qed.

Lemma split_without_separator (sep : N) (s : jsstring) :
  ~ In sep s -> split sep s = [s].
Proof.
  induction s as [|c s IH]; simpl; intros Hno; [reflexivity|].
  destruct (N.eqb_spec c sep) as [-> | _]; [tauto|].
  rewrite IH by tauto. reflexivity.
Qed.

Lemma split_join (sep : N) (l : list jsstring) :
  l <> [] -> Forall (fun x => ~ In sep x) l ->
  split sep (join [sep] l) = l.
Proof.
  induction l as [|x l IH]; [congruence|]. intros _ Hall.
  apply List.Forall_cons_iff in Hall as [Hx Hl].
  destruct l as [|y l].
  - simpl. now apply split_without_separator.
  - change (join [sep] (x :: y :: l)) with (x ++ sep :: join [sep] (y :: l)).
    rewrite split_first by exact Hx. f_equal. apply IH; [discriminate | exact Hl].
Qed.

(** X16. A list read from the environment is clean, and writing a clean
    list with commas reads back: every entry that [parseStringArray]
    returns for a set variable is non-empty, has no white space at its
    ends and holds no comma; and a non-empty list of such entries, joined
    with commas, is parsed back into itself. *)
Theorem parseStringArray_entries_clean_and_round_trip
    (value : jsstring) (defaultValue entries : list jsstring) :
  (truthy value = true ->
   forall x, In x (parseStringArray value defaultValue) ->
     x <> [] /\ trim x = x /\ ~ In 44%N x)
  /\ (entries <> [] ->
      Forall (fun x => x <> [] /\ trim x = x /\ ~ In 44%N x) entries ->
      parseStringArray (join (js ",") entries) defaultValue = entries).
Proof.
  split.
  - intros Hv x. unfold parseStringArray. rewrite Hv. cbn [negb].
    intros H. apply filter_In in H as [H Hx].
    apply in_map_iff in H as (h & <- & Hh).
    split; [destruct (trim h); [discriminate | discriminate]|].
    split; [apply trim_idempotent|].
    intros Hc. apply trim_subset in Hc.
    now apply (split_parts_hold_no_separator 44%N value h).
  - intros Hne Hall. unfold parseStringArray.
    assert (Hv : truthy (join (js ",") entries) = true).
    { destruct entries as [|x l]; [congruence|].
      apply List.Forall_cons_iff in Hall as [(Hx & _) _].
      destruct x as [|c x]; [congruence|]. simpl. now destruct l. }
    rewrite Hv. cbn [negb].
    change (js ",") with [44%N].
    rewrite split_join; [|exact Hne|].
    2:{ eapply List.Forall_impl; [|exact Hall]. simpl. tauto. }
    clear Hv Hne. induction Hall as [|x l (Hx & Ht & _) _ IH]; [reflexivity|].
    simpl. rewrite Ht.
    destruct x as [|c x]; [congruence|]. simpl. f_equal. exact IH.
Qed.

Lemma parseStringArray_entries_clean_and_round_trip_witness :
  parseStringArray (join (js ",") [js "example.com"; js "localhost:3000"])
                   [js "localhost"]
  = [js "example.com"; js "localhost:3000"].
Proof.
  destruct (parseStringArray_entries_clean_and_round_trip
              (js "a") [js "localhost"] [js "example.com"; js "localhost:3000"])
    as [_ H].
  apply H.
  - discriminate.
  - repeat (apply List.Forall_cons;
            [split; [discriminate | split; [reflexivity | simpl; intuition discriminate]]|]).
    apply List.Forall_nil.
Defined.

(** ** CORS and security headers *)

Lemma originAllowed_spec (corsConfig : CorsConfig) (request : Request) :
  originAllowed corsConfig (headers request (js "origin")) = true
  <-> exists s, headers request (js "origin") = Some s /\ s <> []
                /\ In s (origin corsConfig).
Proof.
  unfold originAllowed. destruct (headers request (js "origin")) as [s|].
  - rewrite andb_true_iff, existsb_exists. split.
    + intros [Hs (x & Hin & Hx)]. apply strEq_true in Hx. subst x.
      exists s. split; [reflexivity|]. split; [|exact Hin].
      destruct s; [discriminate | discriminate].
    + intros (s' & [= <-] & Hne & Hin). split.
      * destruct s; [contradiction | reflexivity].
      * exists s. split; [exact Hin | apply strEq_refl].
  - split; [discriminate | intros (s & H & _); discriminate].
Qed.

(** X17. The origin is echoed only when it is on the list: the response
    that [handleCors] returns, be it the preflight response or the given
    response that carried no such header, has Access-Control-Allow-Origin
    exactly when the request names a non-empty origin that is on the
    configured list, and then the header is that origin. *)
Theorem allow_origin_only_for_listed_origins (corsConfig : CorsConfig)
    (request : Request) (response : gmap (list N) jsstring) (o : jsstring) :
  strEq (method request) (js "OPTIONS") = true
  \/ getHeader (js "Access-Control-Allow-Origin") response = None ->
  (getHeader (js "Access-Control-Allow-Origin")
     (fst (handleCors corsConfig request response)) = Some o
   <-> headers request (js "origin") = Some o /\ o <> []
       /\ In o (origin corsConfig)).
Proof.
  assert (Hecho : forall s, headers request (js "origin") = Some s -> s <> [] ->
                    orDefault (headers request (js "origin")) [] = s).
  { intros s -> Hne. destruct s; [contradiction | reflexivity]. }
  assert (Hcase :
    (originAllowed corsConfig (headers request (js "origin")) = true
     /\ exists s, headers request (js "origin") = Some s /\ s <> []
                  /\ In s (origin corsConfig)
                  /\ orDefault (headers request (js "origin")) [] = s)
    \/ (originAllowed corsConfig (headers request (js "origin")) = false
        /\ ~ (headers request (js "origin") = Some o /\ o <> []
              /\ In o (origin corsConfig)))).
  { destruct (originAllowed corsConfig (headers request (js "origin"))) eqn:Ha.
    - left. split; [reflexivity|].
      apply originAllowed_spec in Ha as (s & Hs & Hne & Hin).
      exists s. auto.
    - right. split; [reflexivity|]. intros (Hs & Hne & Hin).
      assert (originAllowed corsConfig (headers request (js "origin")) = true)
        by (apply originAllowed_spec; eauto).
      congruence. }
  intros Hbase. unfold handleCors, getHeader, setHeader in *.
  destruct (strEq (method request) (js "OPTIONS")); cbn [fst].
  - destruct (credentials corsConfig);
      rewrite ?lookup_insert_ne by (vm_compute; discriminate);
      (destruct Hcase as [(-> & s & Hs & Hne & Hin & ->) | (-> & Hno)];
       [ rewrite lookup_insert_eq, Hs; split;
         [ intros [= <-]; auto | intros ([= <-] & _); reflexivity ]
       | rewrite lookup_empty; split; [discriminate | tauto] ]).
  - destruct Hbase as [Hb | Hb]; [discriminate|].
    destruct (credentials corsConfig);
      rewrite ?lookup_insert_ne by (vm_compute; discriminate);
      (destruct Hcase as [(-> & s & Hs & Hne & Hin & ->) | (-> & Hno)];
       [ rewrite lookup_insert_eq, Hs; split;
         [ intros [= <-]; auto | intros ([= <-] & _); reflexivity ]
       | rewrite Hb; split; [discriminate | tauto] ]).
Qed.

Lemma allow_origin_only_for_listed_origins_witness :
  getHeader (js "Access-Control-Allow-Origin")
    (fst (handleCors (getCorsConfig [js "https://weather.example.com"])
            {| method := js "OPTIONS"; pathname := js "/";
               cityParam := None;
               headers := fun h =>
                 if strEq h (js "origin") then Some (js "https://evil.example.org")
                 else None |}
            ∅))
  <> Some (js "https://evil.example.org").
Proof.
  intros H.
  apply (allow_origin_only_for_listed_origins
           (getCorsConfig [js "https://weather.example.com"])
           {| method := js "OPTIONS"; pathname := js "/";
              cityParam := None;
              headers := fun h =>
                if strEq h (js "origin") then Some (js "https://evil.example.org")
                else None |}
           ∅ (js "https://evil.example.org")) in H.
  - destruct H as (_ & _ & [H | []]). discriminate H.
  - left. reflexivity.
Defined.

Lemma addSecurityHeaders_sets (config : AppConfig)
    (next : gmap (list N) jsstring) :
  getHeader (js "X-Content-Type-Options") (addSecurityHeaders config next)
    = Some (js "nosniff")
  /\ getHeader (js "X-Frame-Options") (addSecurityHeaders config next)
    = Some (js "DENY")
  /\ getHeader (js "Content-Security-Policy") (addSecurityHeaders config next)
    = Some contentSecurityPolicy
  /\ getHeader (js "Strict-Transport-Security") (addSecurityHeaders config next)
    = if strEq (nodeEnv config) (js "production")
      then Some (js "max-age=31536000; includeSubDomains; preload")
      else getHeader (js "Strict-Transport-Security") next.
Proof.
  unfold addSecurityHeaders, getHeader, setHeader.
  destruct (strEq (nodeEnv config) (js "production"));
    repeat split;
    rewrite ?lookup_insert_ne by (vm_compute; discriminate);
    try apply lookup_insert_eq; reflexivity.
Qed.

(** X18. A response that the middleware lets through carries the security
    headers whatever the request: nosniff, X-Frame-Options DENY and the
    content security policy are set, Strict-Transport-Security is set in
    production and, the response having started without it, only there,
    and the CORS step changes no header but
    Access-Control-Allow-Origin and Access-Control-Allow-Credentials. For a
    preflight request it changes none at all, since the preflight response
    that [handleCors] builds is not the one the middleware returns. *)
Theorem passed_response_carries_security_headers (config : AppConfig)
    (corsConfig : CorsConfig) (request : Request)
    (next : gmap (list N) jsstring) :
  getHeader (js "X-Content-Type-Options")
    (middlewareNextHeaders config corsConfig request next) = Some (js "nosniff")
  /\ getHeader (js "X-Frame-Options")
       (middlewareNextHeaders config corsConfig request next) = Some (js "DENY")
  /\ getHeader (js "Content-Security-Policy")
       (middlewareNextHeaders config corsConfig request next)
     = Some contentSecurityPolicy
  /\ (getHeader (js "Strict-Transport-Security") next = None ->
      (getHeader (js "Strict-Transport-Security")
         (middlewareNextHeaders config corsConfig request next)
       = Some (js "max-age=31536000; includeSubDomains; preload")
       <-> nodeEnv config = js "production")
      /\ (nodeEnv config <> js "production" ->
          getHeader (js "Strict-Transport-Security")
            (middlewareNextHeaders config corsConfig request next) = None))
  /\ (forall name,
      toLowerCase name <> js "access-control-allow-origin" ->
      toLowerCase name <> js "access-control-allow-credentials" ->
      getHeader name (middlewareNextHeaders config corsConfig request next)
      = getHeader name (addSecurityHeaders config next))
  /\ (strEq (method request) (js "OPTIONS") = true ->
      middlewareNextHeaders config corsConfig request next
      = addSecurityHeaders config next).
Proof.
  assert (Hother : forall name,
    toLowerCase name <> js "access-control-allow-origin" ->
    toLowerCase name <> js "access-control-allow-credentials" ->
    getHeader name (middlewareNextHeaders config corsConfig request next)
    = getHeader name (addSecurityHeaders config next)).
  { intros name H1 H2.
    unfold middlewareNextHeaders, handleCors, getHeader, setHeader.
    destruct (strEq (method request) (js "OPTIONS")); cbn [snd]; [reflexivity|].
    destruct (credentials corsConfig);
      destruct (originAllowed corsConfig (headers request (js "origin")));
      rewrite ?lookup_insert_ne
        by (intros E; first [ apply H1; rewrite <- E; reflexivity
                           | apply H2; rewrite <- E; reflexivity ]);
      reflexivity. }
  destruct (addSecurityHeaders_sets config next) as (Ha & Hb & Hc & Hd).
  split; [rewrite Hother by (vm_compute; discriminate); exact Ha|].
  split; [rewrite Hother by (vm_compute; discriminate); exact Hb|].
  split; [rewrite Hother by (vm_compute; discriminate); exact Hc|].
  split.
  { intros Hnone. rewrite Hother by (vm_compute; discriminate).
    rewrite Hd, Hnone.
    destruct (strEq (nodeEnv config) (js "production")) eqn:E.
    - apply strEq_true in E. split; [tauto | congruence].
    - apply strEq_false in E. split; [|reflexivity].
      split; [discriminate | contradiction]. }
  split; [exact Hother|].
  intros Hopt. unfold middlewareNextHeaders, handleCors. rewrite Hopt.
  reflexivity.
Qed.

Lemma passed_response_carries_security_headers_witness :
  middlewareNextHeaders sampleConfig (getCorsConfig [js "https://weather.example.com"])
    {| method := js "OPTIONS"; pathname := js "/"; cityParam := None;
       headers := fun h =>
         if strEq h (js "origin") then Some (js "https://weather.example.com")
         else None |}
    ∅
  = addSecurityHeaders sampleConfig ∅.
Proof.
  destruct (passed_response_carries_security_headers sampleConfig
              (getCorsConfig [js "https://weather.example.com"])
              {| method := js "OPTIONS"; pathname := js "/"; cityParam := None;
                 headers := fun h =>
                   if strEq h (js "origin")
                   then Some (js "https://weather.example.com")
                   else None |}
              ∅)
    as (_ & _ & _ & _ & _ & H).
  apply H. reflexivity.
Defined.
